(** * Presidio PDF CV redaction: a shallow embedding of [redact.py] and
      [extract.py], and the properties of the redaction pipeline.

    Conventions of the model.
    - A Python [str] is a [string] of 8-bit characters; case mapping and
      white space are those of Python on the ASCII range (code points
      above 127 are kept as they are and are never white space).
    - A Python [set] of strings is a [gset string]; a [dict] whose values
      are all [True] is the list of its keys in insertion order.
    - The external libraries (PyMuPDF, Presidio, difflib, pdfplumber, the
      operating system) are not part of the repository: a PDF page is a
      record of what its methods return or raise, the analyzer is a
      function argument, and the rest is a record [Env] of functions;
      the files are a finite map from paths to bytes.
    - Numbers: the coordinates of a rectangle and the similarity ratio
      are rationals. The ratio of difflib is [2 * M / T] for integers
      [M <= T / 2]; its comparisons with the literals [0.8] and [1.0] in
      double precision agree with the exact ones as long as [T], the sum
      of the two lengths, is below [10^15].
    - Exceptions are values of type [exn]; code that can raise lives in a
      state-and-error monad over the state of a run (files, standard
      output, log of the calls to the libraries). A local list that a
      loop body extends is an accumulator of the loop: the bodies extend
      their lists only after the last call that can raise. *)

From Stdlib Require Import String Ascii ZArith QArith List Lia Bool.
From Stdlib Require Import DecimalString DecimalNat.
From stdpp Require Import base gmap sets list strings option.

Local Open Scope string_scope.
Local Open Scope list_scope.

(** ** Python string primitives *)

Module PyStr.

Definition is_upper (c : ascii) : bool :=
  let n := nat_of_ascii c in (65 <=? n)%nat && (n <=? 90)%nat.

(** [c.lower()] on one character *)
Definition lower_char (c : ascii) : ascii :=
  if is_upper c then ascii_of_nat (nat_of_ascii c + 32) else c.

(** [s.lower()] *)
Fixpoint lower (s : string) : string :=
  match s with
  | EmptyString => EmptyString
  | String c s' => String (lower_char c) (lower s')
  end.

(** [c.isspace()]: tab, line feed, vertical tab, form feed, carriage
    return, the four separators 28..31, and space *)
Definition isspace (c : ascii) : bool :=
  let n := nat_of_ascii c in
  ((9 <=? n)%nat && (n <=? 13)%nat) || ((28 <=? n)%nat && (n <=? 32)%nat).

(** [s.startswith(p)] *)
Fixpoint startswith (p s : string) : bool :=
  match p, s with
  | EmptyString, _ => true
  | String a p', String b s' => if Ascii.eqb a b then startswith p' s' else false
  | String _ _, EmptyString => false
  end.

(** [needle in hay] *)
Fixpoint contains (needle hay : string) : bool :=
  startswith needle hay ||
  match hay with
  | EmptyString => false
  | String _ hay' => contains needle hay'
  end.

(** [s.endswith(suf)] *)
Definition endswith (suf s : string) : bool :=
  let n := String.length suf in
  let m := String.length s in
  (n <=? m)%nat && String.eqb (substring (m - n) n s) suf.

(** [s.replace(old, new)] for a non-empty [old]: the leftmost
    occurrences, not overlapping. [skip] counts the characters of a
    match that are still to be dropped. *)
Fixpoint replace_from (old new s : string) (skip : nat) : string :=
  match s with
  | EmptyString => EmptyString
  | String c s' =>
      match skip with
      | S k => replace_from old new s' k
      | O =>
          if startswith old s
          then new +:+ replace_from old new s' (String.length old - 1)
          else String c (replace_from old new s' 0)
      end
  end.

Definition replace (old new s : string) : string := replace_from old new s 0.

(** [s.split()]: the maximal runs of characters that are not white space *)
Fixpoint split (s : string) : list string :=
  match s with
  | EmptyString => []
  | String c s' =>
      if isspace c then split s'
      else
        match s' with
        | EmptyString => [String c EmptyString]
        | String d _ =>
            if isspace d then String c EmptyString :: split s'
            else
              match split s' with
              | w :: ws => String c w :: ws
              | [] => [String c EmptyString]
              end
        end
  end.

(** [sep.join(l)] *)
Fixpoint join (sep : string) (l : list string) : string :=
  match l with
  | [] => EmptyString
  | [w] => w
  | w :: l' => w +:+ sep +:+ join sep l'
  end.

Fixpoint lstrip (s : string) : string :=
  match s with
  | EmptyString => EmptyString
  | String c s' => if isspace c then lstrip s' else s
  end.

Fixpoint rstrip (s : string) : string :=
  match s with
  | EmptyString => EmptyString
  | String c s' =>
      match rstrip s' with
      | EmptyString => if isspace c then EmptyString else String c EmptyString
      | r => String c r
      end
  end.

(** [s.strip()] *)
Definition strip (s : string) : string := rstrip (lstrip s).

(** An index of a slice, clamped as Python does: a negative index
    counts from the end. *)
Definition clamp (len i : Z) : Z :=
  if (i <? 0)%Z then Z.max 0 (i + len) else Z.min i len.

(** [s[start:stop]] *)
Definition slice (s : string) (start stop : Z) : string :=
  let len := Z.of_nat (String.length s) in
  let a := clamp len start in
  let b := clamp len stop in
  substring (Z.to_nat a) (Z.to_nat (b - a)) s.

(** [str(n)] for a non-negative integer *)
Definition str_of_nat (n : nat) : string :=
  NilEmpty.string_of_uint (Nat.to_uint n).

(** The characters of [s] that satisfy [keep]. *)
Fixpoint filter_chars (keep : ascii -> bool) (s : string) : string :=
  match s with
  | EmptyString => EmptyString
  | String c s' =>
      if keep c then String c (filter_chars keep s') else filter_chars keep s'
  end.

End PyStr.

Import PyStr.

(** ** [redact.py]: the ignore list *)

(** Default technology terms commonly misidentified as PII, in the order
    of the set display of the source (it has repeated elements). *)
Definition DEFAULT_IGNORE_TERMS_list : list string :=
  [ "git"; "github"; "gitlab"; "bitbucket";
    "python"; "java"; "javascript"; "typescript"; "c++"; "c#"; "ruby"; "go"; "rust"; "php"; "perl";
    "react"; "angular"; "vue"; "svelte"; "jquery"; "node"; "nodejs"; "express";
    "django"; "flask"; "spring"; "rails"; "laravel"; "symfony";
    "aws"; "azure"; "gcp"; "cloud"; "docker"; "kubernetes"; "terraform";
    "sql"; "mysql"; "postgresql"; "mongodb"; "oracle"; "redis"; "cassandra";
    "linux"; "unix"; "windows"; "macos"; "ubuntu"; "debian"; "fedora"; "centos";
    "agile"; "scrum"; "kanban"; "jira"; "confluence"; "trello";
    "jenkins"; "circleci"; "travis"; "github actions"; "gitlab ci"; "bitbucket pipelines";
    "selenium"; "cypress"; "jest"; "mocha"; "chai"; "jasmine"; "pytest"; "unittest";
    "docker-compose"; "vagrant"; "ansible"; "puppet"; "chef";
    "elasticsearch"; "logstash"; "kibana"; "grafana"; "prometheus";
    "mongodb"; "cassandra"; "hadoop"; "spark"; "flink";
    "redis"; "memcached"; "rabbitmq"; "kafka"; "active directory";
    "oauth"; "openid"; "jwt"; "saml"; "ldap";
    "rest"; "soap"; "graphql"; "websocket"; "http"; "https";
    "tcp"; "udp"; "ip"; "dns"; "dhcp";
    "ssl"; "tls"; "ssh"; "ftp"; "sftp"; "scp";
    "http2"; "http3"; "quic"; "websocket";
    "json"; "xml"; "yaml"; "csv"; "protobuf";
    "html"; "css"; "scss"; "less"; "sass";
    "bootstrap"; "tailwind"; "materialize"; "foundation";
    "webpack"; "gulp"; "grunt"; "parcel"; "vite";
    "babel"; "typescript"; "eslint"; "prettier";
    "ASCII"; "UTF-8"; "ISO-8859-1"; "UTF-16"; "UTF-32";
    "ASP.NET"; "PHP"; "Ruby on Rails"; "Django"; "Flask";
    "Spring"; "Laravel"; "Symfony"; "Express";
    "ASP.NET"; "asp.net"; ".net"; ".NET"; "dotnet"; "asp" ].

Definition DEFAULT_IGNORE_TERMS : gset string :=
  list_to_set DEFAULT_IGNORE_TERMS_list.

(** [normalize_text]: lower case, then the three [replace] calls. *)
Definition normalize_text (text : string) : string :=
  replace " " "" (replace "-" "" (replace "." "" (lower text))).

(** The set comprehension [{normalize_text(term) for term in ignore_terms}]. *)
Definition normalized_terms (ignore_terms : gset string) : gset string :=
  set_map normalize_text ignore_terms.

(** The loop over the words of [should_ignore]: it returns at the first
    word that matches. *)
Fixpoint should_ignore_words (words : list string) (ignore_terms : gset string) : bool :=
  match words with
  | [] => false
  | word :: rest =>
      if bool_decide (word ∈ ignore_terms) then true
      else if bool_decide (normalize_text word ∈ normalized_terms ignore_terms) then true
      else should_ignore_words rest ignore_terms
  end.

Definition url_tech_terms : list string := [".net"; "asp"; "flask"; "django"; "rails"].

Definition should_ignore (entity_text : string) (ignore_terms : gset string)
    (entity_type : option string) : bool :=
  let entity_lower := lower entity_text in
  let normalized_entity := normalize_text entity_text in
  if bool_decide (entity_lower ∈ ignore_terms) then true
  else if bool_decide (normalized_entity ∈ normalized_terms ignore_terms) then true
  else if should_ignore_words (split entity_lower) ignore_terms then true
  else if bool_decide (entity_type = Some "URL")
          && existsb (fun tech_term => contains tech_term entity_lower) url_tech_terms
  then true
  else false.

(** ** The external world *)

(** A raised exception: its class and the text [str(e)] gives. *)
Record exn := Exn { exn_class : string; exn_msg : string }.

(** A [fitz.Rect]. Coordinates are rationals. *)
Record Rect := mkRect { x0 : Q; y0 : Q; x1 : Q; y1 : Q }.

(** A Presidio [RecognizerResult]: the entity type and the span in the
    analysed text. *)
Record RecognizerResult := mkResult {
  entity_type : string;
  start : Z;
  end_ : Z
}.

(** [analyzer.analyze(text=..., entities=..., language=...)] *)
Definition Analyzer : Type :=
  string -> list string -> string -> exn + list RecognizerResult.

(** A page of an open document, as the calls of [redact.py] see it: each
    field is what the method returns, or the exception it raises. *)
Record Page := mkPage {
  get_text : exn + string;
  search_for : string -> exn + list Rect;
  add_redact_annot_error : Rect -> option exn;
  apply_redactions_error : option exn
}.

(** An open [fitz.Document]: [len(doc)] is [length (pages doc)] and
    [doc[i]] is the [i]-th page. *)
Record Document := mkDocument { pages : list Page }.

(** Calls to the external libraries, in the order they are made. A query
    ([analyze], [search_for], [listdir]) is logged when it is made; an
    update of the document or of the file system is logged when it is
    done, so a call that raises leaves no event. *)
Inductive event :=
| EvAnalyze (text : string) (entities : list string) (language : string)
| EvSearchFor (page_num : nat) (needle : string)
| EvAddRedactAnnot (page_num : nat) (rect : Rect) (fill : Z * Z * Z)
| EvApplyRedactions (page_num : nat)
| EvSave (path : string)
| EvClose
| EvCopy2 (src dst : string)
| EvMakedirs (path : string) (exist_ok : bool)
| EvListdir (path : string).

(** What lies outside the repository. *)
Record Env := mkEnv {
  (** [fitz.open] on the bytes of a file *)
  fitz_parse : string -> exn + Document;
  (** the bytes [Document.save] writes for a document on which the
      logged calls were made *)
  fitz_tobytes : Document -> list event -> exn + string;
  (** can a file be created or replaced at this path *)
  writable : string -> bool;
  (** [os.listdir] *)
  os_listdir : string -> exn + list string;
  (** the exception [os.makedirs(path, exist_ok=True)] raises, if any *)
  os_makedirs_error : string -> option exn;
  (** [SequenceMatcher(None, a, b).ratio()] *)
  SequenceMatcher_ratio : string -> string -> Q;
  (** [pdfplumber.open] on the bytes of a file: what [extract_text()]
      returns on each page ([None] is Python's [None]) *)
  pdfplumber_parse : string -> exn + list (option string)
}.

(** The state of a run: the files (path to bytes), what was printed, and
    the calls made to the libraries. *)
Record state := mkState {
  files : gmap string string;
  stdout : list string;
  calls : list event
}.

(** ** The monad of Python code: state, and exceptions *)

Definition Py (A : Type) : Type := state -> (exn + A) * state.

Definition run {A} (c : Py A) (s : state) : (exn + A) * state := c s.

#[export] Instance Py_ret : MRet Py := fun A a s => (inr a, s).

#[export] Instance Py_bind : MBind Py := fun A B f c s =>
  match c s with
  | (inl e, s') => (inl e, s')
  | (inr a, s') => f a s'
  end.

(** [raise e] *)
Definition raise {A} (e : exn) : Py A := fun s => (inl e, s).

(** The outcome of [c], with its exception caught. *)
Definition attempt {A} (c : Py A) : Py (exn + A) := fun s =>
  match c s with
  | (r, s') => (inr r, s')
  end.

(** [try: c  except Exception as e: h e] *)
Definition try_except {A} (c : Py A) (h : exn -> Py A) : Py A := fun s =>
  match c s with
  | (inl e, s') => h e s'
  | (inr a, s') => (inr a, s')
  end.

(** [try: c  finally: f] *)
Definition try_finally {A} (c : Py A) (f : Py unit) : Py A := fun s =>
  match c s with
  | (r, s') =>
      match f s' with
      | (inl e, s'') => (inl e, s'')
      | (inr _, s'') => (r, s'')
      end
  end.

(** A value or an exception computed outside the state. *)
Definition lift {A} (r : exn + A) : Py A := fun s => (r, s).

Definition print (line : string) : Py unit := fun s =>
  (inr tt, mkState (files s) (stdout s ++ [line]) (calls s)).

Definition log (ev : event) : Py unit := fun s =>
  (inr tt, mkState (files s) (stdout s) (calls s ++ [ev])).

(** [for x in xs: acc = body i x acc], with [i] the index of [x] counted
    from [i0]. *)
Fixpoint for_each {A B} (body : nat -> A -> B -> Py B) (i0 : nat) (xs : list A)
    (acc : B) : Py B :=
  match xs with
  | [] => mret acc
  | x :: xs' => acc' ← body i0 x acc; for_each body (S i0) xs' acc'
  end.

(** [for x in xs: body x] *)
Fixpoint for_ {A} (xs : list A) (body : A -> Py unit) : Py unit :=
  match xs with
  | [] => mret tt
  | x :: xs' => body x;; for_ xs' body
  end.

(** ** The library calls of [redact.py] *)

Section Redact.

Context (env : Env).

(** [fitz.open(path)] *)
Definition fitz_open (path : string) : Py Document := fun s =>
  match files s !! path with
  | None => (inl (Exn "FileNotFoundError" ("no such file: '" +:+ path +:+ "'")), s)
  | Some data => (fitz_parse env data, s)
  end.

(** [shutil.copy2(src, dst)] *)
Definition shutil_copy2 (src dst : string) : Py unit := fun s =>
  match files s !! src with
  | None =>
      (inl (Exn "FileNotFoundError" ("No such file or directory: '" +:+ src +:+ "'")), s)
  | Some data =>
      if String.eqb src dst
      then (inl (Exn "SameFileError" ("'" +:+ src +:+ "' and '" +:+ dst +:+ "' are the same file")), s)
      else if writable env dst
      then (inr tt, mkState (<[dst := data]> (files s)) (stdout s)
                            (calls s ++ [EvCopy2 src dst]))
      else (inl (Exn "OSError" ("cannot write '" +:+ dst +:+ "'")), s)
  end.

(** [pdf_document.save(path)] *)
Definition document_save (pdf_document : Document) (path : string) : Py unit := fun s =>
  match fitz_tobytes env pdf_document (calls s) with
  | inl e => (inl e, s)
  | inr data =>
      if writable env path
      then (inr tt, mkState (<[path := data]> (files s)) (stdout s)
                            (calls s ++ [EvSave path]))
      else (inl (Exn "OSError" ("cannot write '" +:+ path +:+ "'")), s)
  end.

(** [pdf_document.close()] *)
Definition document_close : Py unit := log EvClose.

(** [analyzer.analyze(text=text, entities=entities, language=language)] *)
Definition analyze (analyzer : Analyzer) (text : string)
    (entities : list string) (language : string) : Py (list RecognizerResult) :=
  log (EvAnalyze text entities language);;
  lift (analyzer text entities language).

(** [page.add_redact_annot(rect, fill=fill)] *)
Definition add_redact_annot (page_num : nat) (page : Page) (rect : Rect)
    (fill : Z * Z * Z) : Py unit :=
  match add_redact_annot_error page rect with
  | Some e => raise e
  | None => log (EvAddRedactAnnot page_num rect fill)
  end.

(** [page.apply_redactions()] *)
Definition apply_redactions (page_num : nat) (page : Page) : Py unit :=
  match apply_redactions_error page with
  | Some e => raise e
  | None => log (EvApplyRedactions page_num)
  end.

(** [traceback.print_exc()] in a module that does not import
    [traceback]: looking the name up raises. *)
Definition traceback_print_exc : Py unit :=
  raise (Exn "NameError" "name 'traceback' is not defined").

(** ** [redact.py] *)

Definition find_text_on_page (page_num : nat) (page : Page) (text : string)
    : Py (list Rect) :=
  log (EvSearchFor page_num (strip text));;
  lift (search_for page (strip text)).

Definition similar (a b : string) : Q :=
  SequenceMatcher_ratio env (lower a) (lower b).

(** [ignore_terms] as [redact_pdf] uses it after its first two
    statements. *)
Definition effective_ignore_terms (ignore_terms : option (gset string)) : gset string :=
  let ignore_terms := match ignore_terms with None => ∅ | Some t => t end in
  set_map lower ignore_terms ∪ DEFAULT_IGNORE_TERMS.

Definition entities_to_detect : list string :=
  ["PERSON"; "EMAIL_ADDRESS"; "PHONE_NUMBER"; "URL"].

(** An element of [all_results]: [(page_num, result, entity_text)]. *)
Definition entry : Type := nat * RecognizerResult * string.

(** First pass, the loop over the results of one page. The
    accumulators are [all_results] and [found_persons]. *)
Fixpoint collect (ignore_terms : gset string) (page_num : nat) (text : string)
    (analyzer_results : list RecognizerResult)
    (acc : list entry * list string) : list entry * list string :=
  match analyzer_results with
  | [] => acc
  | result :: rest =>
      let entity_text := slice text (start result) (end_ result) in
      let entity_type := entity_type result in
      if should_ignore entity_text ignore_terms (Some entity_type)
      then collect ignore_terms page_num text rest acc
      else
        let all_results := acc.1 ++ [(page_num, result, entity_text)] in
        let found_persons :=
          if String.eqb entity_type "PERSON" then acc.2 ++ [entity_text] else acc.2 in
        collect ignore_terms page_num text rest (all_results, found_persons)
  end.

(** First pass, the body of the loop over the pages. *)
Definition first_pass_page (pdf_path : string) (analyzer : Analyzer)
    (ignore_terms : gset string) (page_num : nat) (page : Page)
    (acc : list entry * list string) : Py (list entry * list string) :=
  try_except
    (text ← lift (get_text page);
     analyzer_results ← analyze analyzer text entities_to_detect "en";
     mret (collect ignore_terms page_num text analyzer_results acc))
    (fun e =>
       print ("Error processing page " +:+ str_of_nat page_num +:+ " of "
              +:+ pdf_path +:+ ": " +:+ exn_msg e);;
       mret acc).

(** [name_variants[key] = True] on a dict kept as its list of keys *)
Definition dict_set (key : string) (name_variants : list string) : list string :=
  if bool_decide (key ∈ name_variants) then name_variants else name_variants ++ [key].

Definition Qltb (a b : Q) : bool := negb (Qle_bool b a).

(** Second pass, the loop over [found_persons]. *)
Fixpoint check_persons (potential_name : string) (found_persons : list string)
    (name_variants : list string) : list string :=
  match found_persons with
  | [] => name_variants
  | person :: rest =>
      let name_variants :=
        if (8 <=? String.length person)%nat then
          let similarity := similar potential_name person in
          if Qltb (8 # 10) similarity && Qltb similarity 1
             && negb (String.eqb (lower potential_name) (lower person))
          then dict_set potential_name name_variants
          else name_variants
        else name_variants in
      check_persons potential_name rest name_variants
  end.

(** Second pass, the loop over [name_length in range(2, 5)] at word [i]. *)
Definition check_lengths (words : list string) (found_persons : list string)
    (i : nat) (name_variants : list string) : list string :=
  fold_left
    (fun name_variants name_length =>
       if (i + name_length <=? length words)%nat then
         let potential_name := join " " (firstn name_length (skipn i words)) in
         if (String.length potential_name <? 8)%nat then name_variants
         else check_persons potential_name found_persons name_variants
       else name_variants)
    [2; 3; 4]%nat name_variants.

(** Second pass, the loop over [i in range(len(words))]. *)
Definition check_words (words : list string) (found_persons : list string)
    (name_variants : list string) : list string :=
  fold_left (fun name_variants i => check_lengths words found_persons i name_variants)
    (seq 0 (length words)) name_variants.

(** Second pass, the body of the loop over the pages. *)
Definition second_pass_page (pdf_path : string) (found_persons : list string)
    (page_num : nat) (page : Page) (name_variants : list string)
    : Py (list string) :=
  try_except
    (text ← lift (get_text page);
     let words := split text in
     mret (check_words words found_persons name_variants))
    (fun e =>
       print ("Error processing page " +:+ str_of_nat page_num +:+ " of "
              +:+ pdf_path +:+ ": " +:+ exn_msg e);;
       mret name_variants).

(** The four assignments to the fields of a rectangle. *)
Definition enlarge (rect : Rect) : Rect :=
  mkRect (x0 rect - 2) (y0 rect - 2) (x1 rect + 2) (y1 rect + 2).

(** [for rect in text_instances: ...] *)
Definition redact_rects (page_num : nat) (page : Page) (text_instances : list Rect)
    : Py unit :=
  for_ text_instances
    (fun rect => add_redact_annot page_num page (enlarge rect) (0, 0, 0)%Z).

(** Redaction pass, the body of the loop over the pages. *)
Definition redact_page (pdf_path : string) (all_results : list entry)
    (name_variants : list string) (page_num : nat) (page : Page) (_ : unit)
    : Py unit :=
  try_except
    (for_ all_results
       (fun '(page_idx, result, entity_text) =>
          if (page_idx =? page_num)%nat then
            text_instances ← find_text_on_page page_num page entity_text;
            redact_rects page_num page text_instances
          else mret tt);;
     for_ name_variants
       (fun variant =>
          text_instances ← find_text_on_page page_num page variant;
          redact_rects page_num page text_instances);;
     apply_redactions page_num page)
    (fun e =>
       print ("Error applying redactions on page " +:+ str_of_nat page_num
              +:+ " of " +:+ pdf_path +:+ ": " +:+ exn_msg e)).

(** The three loops over the pages of the open document. *)
Definition first_pass (pdf_path : string) (analyzer : Analyzer)
    (ignore_terms : gset string) (pdf_document : Document)
    : Py (list entry * list string) :=
  for_each (first_pass_page pdf_path analyzer ignore_terms) 0
    (pages pdf_document) ([], []).

Definition second_pass (pdf_path : string) (found_persons : list string)
    (pdf_document : Document) : Py (list string) :=
  for_each (second_pass_page pdf_path found_persons) 0 (pages pdf_document) [].

Definition redaction_pass (pdf_path : string) (all_results : list entry)
    (name_variants : list string) (pdf_document : Document) : Py unit :=
  for_each (redact_page pdf_path all_results name_variants) 0
    (pages pdf_document) tt.

(** Saving, with the copy of the original when saving fails. *)
Definition save_or_copy (pdf_path output_path : string) (pdf_document : Document)
    : Py unit :=
  try_finally
    (try_except
       (document_save pdf_document output_path)
       (fun e =>
          print ("Error saving PDF " +:+ output_path +:+ ": " +:+ exn_msg e);;
          shutil_copy2 pdf_path output_path;;
          print ("Copied original file to " +:+ output_path +:+ " due to saving error")))
    document_close.

(** The body of the outer [try] of [redact_pdf]. *)
Definition redact_pdf_body (pdf_path output_path : string) (analyzer : Analyzer)
    (ignore_terms : option (gset string)) : Py unit :=
  let ignore_terms := effective_ignore_terms ignore_terms in
  opened ← attempt (fitz_open pdf_path);
  match opened with
  | inl e =>
      print ("Error opening PDF " +:+ pdf_path +:+ ": " +:+ exn_msg e);;
      shutil_copy2 pdf_path output_path;;
      print ("Copied original file to " +:+ output_path +:+ " due to opening error");;
      mret tt
  | inr pdf_document =>
      '(all_results, found_persons) ← first_pass pdf_path analyzer ignore_terms pdf_document;
      name_variants ← second_pass pdf_path found_persons pdf_document;
      redaction_pass pdf_path all_results name_variants pdf_document;;
      save_or_copy pdf_path output_path pdf_document
  end.

Definition redact_pdf (pdf_path output_path : string) (analyzer : Analyzer)
    (ignore_terms : option (gset string)) : Py unit :=
  try_except
    (redact_pdf_body pdf_path output_path analyzer ignore_terms)
    (fun e =>
       print ("Unexpected error processing " +:+ pdf_path +:+ ": " +:+ exn_msg e);;
       traceback_print_exc).

End Redact.

(** ** [redact.py]: batch processing and the command line *)

Module OsPath.

(** [os.path.join(a, b)] of [posixpath] *)
Definition join (a b : string) : string :=
  if startswith "/" b then b
  else if String.eqb a "" || endswith "/" a then a +:+ b
  else a +:+ "/" +:+ b.

End OsPath.

(** [s.split(sep)] for a separator of one character *)
Fixpoint split_char (sep : ascii) (s : string) : list string :=
  match s with
  | EmptyString => [EmptyString]
  | String c s' =>
      if Ascii.eqb c sep then EmptyString :: split_char sep s'
      else
        match split_char sep s' with
        | w :: ws => String c w :: ws
        | [] => [String c EmptyString]
        end
  end.

(** The [Namespace] that [parser.parse_args()] returns. *)
Record Namespace := mkNamespace {
  input : string;
  output : string;
  batch : bool;
  ignore : option string;
  disable_default_ignores : bool
}.

Section Batch.

Context (env : Env).

(** [os.makedirs(path, exist_ok=True)] *)
Definition os_makedirs (path : string) : Py unit :=
  match os_makedirs_error env path with
  | Some e => raise e
  | None => log (EvMakedirs path true)
  end.

(** [os.listdir(path)] *)
Definition listdir (path : string) : Py (list string) :=
  log (EvListdir path);;
  lift (os_listdir env path).

(** The body of the loop of [process_directory]; the accumulator is
    [count]. *)
Definition process_entry (input_dir output_dir : string) (analyzer : Analyzer)
    (ignore_terms : option (gset string)) (_ : nat) (filename : string)
    (count : nat) : Py nat :=
  let count := (count + 1)%nat in
  if endswith ".pdf" (lower filename) then
    let input_path := OsPath.join input_dir filename in
    let output_path := OsPath.join output_dir (str_of_nat count +:+ ".pdf") in
    redact_pdf env input_path output_path analyzer ignore_terms;;
    mret count
  else mret count.

Definition process_directory (input_dir output_dir : string) (analyzer : Analyzer)
    (ignore_terms : option (gset string)) : Py unit :=
  os_makedirs output_dir;;
  filenames ← listdir input_dir;
  for_each (process_entry input_dir output_dir analyzer ignore_terms) 0 filenames 0%nat;;
  mret tt.

Definition parse_ignore_terms (ignore_list : option string) : gset string :=
  match ignore_list with
  | None => ∅
  | Some EmptyString => ∅
  | Some ignore_list => list_to_set (map strip (split_char "," ignore_list))
  end.

(** [main], from the parsed arguments on; [analyzer] is what
    [setup_presidio()] returned. *)
Definition main (args : Namespace) (analyzer : Analyzer) : Py unit :=
  let ignore_terms := parse_ignore_terms (ignore args) in
  if batch args
  then process_directory (input args) (output args) analyzer (Some ignore_terms)
  else redact_pdf env (input args) (output args) analyzer (Some ignore_terms).

End Batch.

(** ** [extract.py] *)




Section Extract.

Context (env : Env).







End Extract.

(** ** A small world for the examples *)

Module Toy.

(** A page whose text is [text]: a search finds the needle when the text
    contains it, on one line of the page, and no call raises. *)
Definition text_page (text : string) : Page :=
  {| get_text := inr text;
     search_for := fun needle =>
       inr (if contains needle text
            then [mkRect 72 100 (72 + inject_Z (Z.of_nat (String.length needle))) 112]
            else []);
     add_redact_annot_error := fun _ => None;
     apply_redactions_error := None |}.

Definition cv_page0 : string := "Jon Gosmithson see flask.io".
Definition cv_page1 : string := "Contact Jon Go smithson".

(** The bytes ["%PDF cv"] are a document of two pages; ["%PDF damaged"]
    opens as a document of one page that cannot be saved; nothing else
    opens. *)
Definition cv : Document := mkDocument [text_page cv_page0; text_page cv_page1].
Definition damaged : Document := mkDocument [text_page "Jon Gosmithson"].

(** [SequenceMatcher(None, a, b).ratio()] for strings shorter than 200
    characters, where difflib has no junk and no popular elements: the
    longest matching block, the earliest in [a] and then in [b] among
    the longest, and the same again to its left and to its right. *)
Fixpoint common_prefix (a b : string) : nat :=
  match a, b with
  | String x a', String y b' =>
      if Ascii.eqb x y then S (common_prefix a' b') else 0
  | _, _ => 0
  end.

Fixpoint scan_b (a_suffix : string) (i : nat) (b : string) (j : nat)
    (best : nat * nat * nat) : nat * nat * nat :=
  match b with
  | EmptyString => best
  | String _ b' =>
      let k := common_prefix a_suffix b in
      scan_b a_suffix i b' (S j) (if (best.2 <? k)%nat then (i, j, k) else best)
  end.

Fixpoint scan_a (a : string) (i : nat) (b : string) (best : nat * nat * nat)
    : nat * nat * nat :=
  match a with
  | EmptyString => best
  | String _ a' => scan_a a' (S i) b (scan_b a i b 0 best)
  end.

Definition find_longest_match (a b : string) : nat * nat * nat :=
  scan_a a 0 b (0, 0, 0)%nat.

Fixpoint matches (fuel : nat) (a b : string) : nat :=
  match fuel with
  | O => 0
  | S fuel' =>
      let '(i, j, k) := find_longest_match a b in
      if (k =? 0)%nat then 0%nat
      else (k + matches fuel' (substring 0 i a) (substring 0 j b)
              + matches fuel' (substring (i + k) (String.length a - (i + k)) a)
                              (substring (j + k) (String.length b - (j + k)) b))%nat
  end.

Definition ratio (a b : string) : Q :=
  let total := (String.length a + String.length b)%nat in
  if (total =? 0)%nat then 1
  else Z.of_nat (2 * matches (S (String.length a)) a b) # Pos.of_nat total.

Definition env : Env :=
  {| fitz_parse := fun data =>
       if String.eqb data "%PDF cv" then inr cv
       else if String.eqb data "%PDF damaged" then inr damaged
       else inl (Exn "FileDataError" "Failed to open file");
     fitz_tobytes := fun doc evs =>
       if (length (pages doc) =? 2)%nat then inr "%PDF redacted"
       else inl (Exn "RuntimeError" "cannot save the document");
     writable := fun path => negb (startswith "/ro/" path);
     os_listdir := fun path =>
       if String.eqb path "in" then inr ["a.pdf"; "notes.txt"; "b.PDF"]
       else inl (Exn "FileNotFoundError" "No such file or directory");
     os_makedirs_error := fun path =>
       if startswith "/ro/" path then Some (Exn "PermissionError" "Permission denied")
       else None;
     SequenceMatcher_ratio := ratio;
     pdfplumber_parse := fun data =>
       if String.eqb data "%PDF cv" then inr [Some cv_page0; None; Some cv_page1]
       else inl (Exn "PDFSyntaxError" "No /Root object")
  |}.

(** Presidio on the two pages: a name and, on the same span, a person
    and a URL on page 0; a name on page 1. Only the entity types asked
    for are returned. *)
Definition detected (text : string) : list RecognizerResult :=
  if startswith cv_page0 text then
    [mkResult "PERSON" 0 14; mkResult "PERSON" 19 27; mkResult "URL" 19 27]
  else if String.eqb text cv_page1 then [mkResult "PERSON" 8 23]
  else [].

Definition analyzer : Analyzer := fun text entities language =>
  inr (List.filter (fun r => existsb (String.eqb (entity_type r)) entities)
         (detected text)).

Definition s0 : state :=
  mkState {[ "cv.pdf" := "%PDF cv"; "old.pdf" := "%PDF damaged";
             "notes.txt" := "hello"; "Rares_Florea.pdf" := "%PDF cv" ]} [] [].


End Toy.

(** ** Definitions used to state the properties *)

(** The characters [normalize_text] keeps. *)
Definition kept_by_normalize (c : ascii) : bool :=
  negb (Ascii.eqb c "." || Ascii.eqb c "-" || Ascii.eqb c " ").

(** The state after more lines were printed and more calls were logged. *)
Definition extend (s : state) (out : list string) (evs : list event) : state :=
  mkState (files s) (stdout s ++ out) (calls s ++ evs).

(** [c] returns [a] in every state, logs exactly [evs], and otherwise
    only prints. *)
Definition returns {A} (c : Py A) (a : A) (evs : list event) : Prop :=
  forall s, exists out, run c s = (inr a, extend s out evs).

(** [c] returns or raises, only prints, and logs only events in [P]. *)
Definition quiet {A} (P : event -> Prop) (c : Py A) : Prop :=
  forall s, exists r out evs, run c s = (r, extend s out evs) /\ Forall P evs.

(** [c] is [quiet] and never raises. *)
Definition total {A} (P : event -> Prop) (c : Py A) : Prop :=
  forall s, exists a out evs, run c s = (inr a, extend s out evs) /\ Forall P evs.

(** The pure counterparts of the two loops. *)
Fixpoint foldi {A B} (f : nat -> A -> B -> B) (i0 : nat) (xs : list A) (acc : B) : B :=
  match xs with
  | [] => acc
  | x :: xs' => foldi f (S i0) xs' (f i0 x acc)
  end.

Fixpoint concat_mapi {A E} (g : nat -> A -> list E) (i0 : nat) (xs : list A) : list E :=
  match xs with
  | [] => []
  | x :: xs' => g i0 x ++ concat_mapi g (S i0) xs'
  end.

(** The text of a result on a page text. *)
Definition text_of (text : string) (r : RecognizerResult) : string :=
  slice text (start r) (end_ r).

(** Is the result kept, that is, not ignored? *)
Definition kept (T : gset string) (text : string) (r : RecognizerResult) : bool :=
  negb (should_ignore (text_of text r) T (Some (entity_type r))).

Definition is_person (r : RecognizerResult) : bool := String.eqb (entity_type r) "PERSON".

(** What the analyzer returns on a page: nothing when the text of the
    page or the analysis raises. *)
Definition page_analysis (analyzer : Analyzer) (page : Page)
    : option (string * list RecognizerResult) :=
  match get_text page with
  | inr text =>
      match analyzer text entities_to_detect "en" with
      | inr results => Some (text, results)
      | inl _ => None
      end
  | inl _ => None
  end.

(** The entries and the person names one page contributes. *)
Definition page_entries (analyzer : Analyzer) (T : gset string) (page_num : nat)
    (page : Page) : list entry :=
  match page_analysis analyzer page with
  | Some (text, results) =>
      map (fun r => (page_num, r, text_of text r)) (List.filter (kept T text) results)
  | None => []
  end.

Definition page_persons (analyzer : Analyzer) (T : gset string) (page_num : nat)
    (page : Page) : list string :=
  match page_analysis analyzer page with
  | Some (text, results) =>
      map (text_of text)
        (List.filter (fun r => kept T text r && is_person r) results)
  | None => []
  end.

Definition analyze_calls (page_num : nat) (page : Page) : list event :=
  match get_text page with
  | inr text => [EvAnalyze text entities_to_detect "en"]
  | inl _ => []
  end.

Definition collect_page (analyzer : Analyzer) (T : gset string) (page_num : nat)
    (page : Page) (acc : list entry * list string) : list entry * list string :=
  (acc.1 ++ page_entries analyzer T page_num page,
   acc.2 ++ page_persons analyzer T page_num page).

(** The test of the second pass on a candidate and a person name. *)
Definition is_variant_of (env : Env) (potential_name person : string) : Prop :=
  (8 <= String.length person)%nat
  /\ (8 # 10 < similar env potential_name person)%Q
  /\ (similar env potential_name person < 1)%Q
  /\ lower potential_name <> lower person.

Definition variant_test (env : Env) (potential_name person : string) : bool :=
  (8 <=? String.length person)%nat
  && Qltb (8 # 10) (similar env potential_name person)
  && Qltb (similar env potential_name person) 1
  && negb (String.eqb (lower potential_name) (lower person)).

(** The candidate of [n] words at word [i]. *)
Definition word_sequence (words : list string) (i n : nat) : string :=
  join " " (firstn n (skipn i words)).

(** [x] is recorded for the words of a page. *)
Definition recorded_at (env : Env) (found_persons words : list string) (i n : nat)
    (x : string) : Prop :=
  (2 <= n <= 4)%nat /\ (i + n <= length words)%nat
  /\ x = word_sequence words i n
  /\ (8 <= String.length x)%nat
  /\ exists person, person ∈ found_persons /\ is_variant_of env x person.

Definition variants_page (env : Env) (found_persons : list string) (page_num : nat)
    (page : Page) (name_variants : list string) : list string :=
  match get_text page with
  | inr text => check_words env (split text) found_persons name_variants
  | inl _ => name_variants
  end.

(** The texts searched for on a page: the collected entities detected on
    that page, then every name variant. *)
Definition needles_on_page (all_results : list entry) (name_variants : list string)
    (page_num : nat) : list string :=
  map (fun e : entry => e.2)
    (List.filter (fun e : entry => (e.1.1 =? page_num)%nat) all_results)
  ++ name_variants.

(** The search for one text and, for each rectangle found, the annotation
    of the rectangle grown by 2 on its four sides, filled in black. *)
Definition search_and_redact_calls (page_num : nat) (page : Page) (needle : string)
    : list event :=
  EvSearchFor page_num (strip needle)
  :: match search_for page (strip needle) with
     | inr rects =>
         map (fun rect =>
                EvAddRedactAnnot page_num
                  (mkRect (x0 rect - 2) (y0 rect - 2) (x1 rect + 2) (y1 rect + 2))
                  (0, 0, 0)%Z)
           rects
     | inl _ => []
     end.

(** The calls on one page: the searches and annotations, then one
    [apply_redactions]. *)
Definition page_redaction_calls (all_results : list entry) (name_variants : list string)
    (page_num : nat) (page : Page) : list event :=
  concat (map (search_and_redact_calls page_num page)
            (needles_on_page all_results name_variants page_num))
  ++ [EvApplyRedactions page_num].

(** A search or an annotation on page [p]. *)
Definition search_or_annot (p : nat) (ev : event) : Prop :=
  match ev with
  | EvSearchFor q _ => q = p
  | EvAddRedactAnnot q _ _ => q = p
  | _ => False
  end.

(** The search for [needle] on the page and the annotations of what it
    finds do not raise. *)
Definition needle_calls_ok (page : Page) (needle : string) : Prop :=
  exists rects,
    search_for page (strip needle) = inr rects
    /\ forall rect, rect ∈ rects -> add_redact_annot_error page (enlarge rect) = None.

(** No call that the redaction pass makes on the page raises: the
    searches for the texts of the page, the annotations of the rectangles
    found, and [apply_redactions]. *)
Definition page_calls_ok (all_results : list entry) (name_variants : list string)
    (page_num : nat) (page : Page) : Prop :=
  (forall n, n ∈ needles_on_page all_results name_variants page_num ->
             needle_calls_ok page n)
  /\ apply_redactions_error page = None.

(** [c] either returns [a] after logging exactly [evs], and then [Ok]
    holds, or raises after logging the first events of [evs] only, all
    of them in [P], and then [Ok] fails. *)
Definition completes {A} (c : Py A) (a : A) (evs : list event) (Ok : Prop)
    (P : event -> Prop) : Prop :=
  forall s,
    (exists out, run c s = (inr a, extend s out evs) /\ Ok)
    \/ (exists e out evs', run c s = (inl e, extend s out evs')
                           /\ Forall P evs' /\ evs' `prefix_of` evs /\ ~ Ok).

Definition not_analyze (ev : event) : Prop :=
  match ev with
  | EvAnalyze _ _ _ => False
  | _ => True
  end.

(** Saving, or copying when saving fails: the outcome in each case. *)
Inductive save_outcome (env : Env) (pdf_path output_path : string)
    (pdf_document : Document) (s : state) : (exn + unit) * state -> Prop :=
| saved data :
    fitz_tobytes env pdf_document (calls s) = inr data ->
    writable env output_path = true ->
    save_outcome env pdf_path output_path pdf_document s
      (inr tt, mkState (<[output_path := data]> (files s)) (stdout s)
                 (calls s ++ [EvSave output_path; EvClose]))
| copied e data :
    run (document_save env pdf_document output_path) s = (inl e, s) ->
    files s !! pdf_path = Some data ->
    pdf_path <> output_path ->
    writable env output_path = true ->
    save_outcome env pdf_path output_path pdf_document s
      (inr tt,
       mkState (<[output_path := data]> (files s))
         (stdout s ++ ["Error saving PDF " +:+ output_path +:+ ": " +:+ exn_msg e;
                       "Copied original file to " +:+ output_path
                       +:+ " due to saving error"])
         (calls s ++ [EvCopy2 pdf_path output_path; EvClose]))
| copy_failed e e' :
    run (document_save env pdf_document output_path) s = (inl e, s) ->
    (forall s1, files s1 = files s ->
                run (shutil_copy2 env pdf_path output_path) s1 = (inl e', s1)) ->
    save_outcome env pdf_path output_path pdf_document s
      (inl e',
       mkState (files s)
         (stdout s ++ ["Error saving PDF " +:+ output_path +:+ ": " +:+ exn_msg e])
         (calls s ++ [EvClose])).

Definition NameError_traceback : exn :=
  Exn "NameError" "name 'traceback' is not defined".




(** The three loops over the pages, between opening and saving, for the
    ignore set [T]. *)
Definition redact_pages (env : Env) (pdf_path : string) (analyzer : Analyzer)
    (T : gset string) (pdf_document : Document) : Py unit :=
  '(all_results, found_persons) ← first_pass pdf_path analyzer T pdf_document;
  name_variants ← second_pass env pdf_path found_persons pdf_document;
  redaction_pass pdf_path all_results name_variants pdf_document.

(** The calls of [redact_pdf] that [process_directory] makes for a
    listing: the entries are numbered from 1, every entry takes a number,
    and the entries whose name in lower case ends in [".pdf"] are redacted
    to [<number>.pdf] in the output directory. *)
Definition pdf_jobs (input_dir output_dir : string) (filenames : list string)
    : list (string * string) :=
  map (fun '(count, filename) =>
         (OsPath.join input_dir filename,
          OsPath.join output_dir (str_of_nat count +:+ ".pdf")))
    (List.filter (fun '(count, filename) => endswith ".pdf" (lower filename))
       (combine (seq 1 (length filenames)) filenames)).

(** Do all the characters of [s] satisfy [p]? *)
Fixpoint all_chars (p : ascii -> bool) (s : string) : bool :=
  match s with
  | EmptyString => true
  | String c s' => p c && all_chars p s'
  end.

(** A word: not empty, and without white space. *)
Definition is_word (w : string) : Prop :=
  w <> EmptyString /\ all_chars (fun c => negb (isspace c)) w = true.

(** A call on page [p] of the open document. *)
Definition on_page (p : nat) (ev : event) : Prop :=
  match ev with
  | EvSearchFor q _ => q = p
  | EvAddRedactAnnot q _ _ => q = p
  | EvApplyRedactions q => q = p
  | _ => False
  end.

(** A call made by one of the three loops over the pages. *)
Definition pass_event (ev : event) : Prop :=
  match ev with
  | EvAnalyze _ _ _ => True
  | EvSearchFor _ _ => True
  | EvAddRedactAnnot _ _ _ => True
  | EvApplyRedactions _ => True
  | _ => False
  end.

(** The call [redact_pdf input_path output_path analyzer ignore_terms] of
    a job of [process_directory]. *)
Definition redact_job (env : Env) (analyzer : Analyzer)
    (ignore_terms : option (gset string)) (job : string * string) : Py unit :=
  let '(input_path, output_path) := job in
  redact_pdf env input_path output_path analyzer ignore_terms.

Module ToyBroken.

(** A page with the given text on which every search raises. *)
Definition broken_page (text : string) : Page :=
  {| get_text := inr text;
     search_for := fun _ => inl (Exn "RuntimeError" "page is damaged");
     add_redact_annot_error := fun _ => None;
     apply_redactions_error := None |}.

(** A document whose first page is broken and whose second page is not. *)
Definition doc : Document :=
  mkDocument [broken_page Toy.cv_page0; Toy.text_page Toy.cv_page1].

(** A page with the given text on which the search for the empty text
    raises, and no other call does. *)
Definition strict_page (text : string) : Page :=
  {| get_text := inr text;
     search_for := fun needle =>
       if String.eqb needle EmptyString
       then inl (Exn "ValueError" "empty search text")
       else search_for (Toy.text_page text) needle;
     add_redact_annot_error := fun _ => None;
     apply_redactions_error := None |}.

(** The two pages of the CV, as such pages. *)
Definition strict_cv : Document :=
  mkDocument [strict_page Toy.cv_page0; strict_page Toy.cv_page1].

(** A document whose first page is broken and whose second page raises
    at the search for the empty text only. *)
Definition strict_doc : Document :=
  mkDocument [broken_page Toy.cv_page0; strict_page Toy.cv_page1].

End ToyBroken.

(** The outcomes of a run of [redact_pdf]. *)
Inductive run_outcome (env : Env) (pdf_path output_path : string) (s : state)
    : (exn + unit) * state -> Prop :=
| run_saved doc data out evs :
    run (fitz_open env pdf_path) s = (inr doc, s) ->
    Forall pass_event evs ->
    fitz_tobytes env doc (calls s ++ evs) = inr data ->
    writable env output_path = true ->
    run_outcome env pdf_path output_path s
      (inr tt, mkState (<[output_path := data]> (files s)) (stdout s ++ out)
                 (calls s ++ evs ++ [EvSave output_path; EvClose]))
| run_copied_after_save doc data out evs :
    run (fitz_open env pdf_path) s = (inr doc, s) ->
    Forall pass_event evs ->
    files s !! pdf_path = Some data ->
    run_outcome env pdf_path output_path s
      (inr tt, mkState (<[output_path := data]> (files s)) (stdout s ++ out)
                 (calls s ++ evs ++ [EvCopy2 pdf_path output_path; EvClose]))
| run_copied_after_open e data out :
    run (fitz_open env pdf_path) s = (inl e, s) ->
    files s !! pdf_path = Some data ->
    run_outcome env pdf_path output_path s
      (inr tt, mkState (<[output_path := data]> (files s)) (stdout s ++ out)
                 (calls s ++ [EvCopy2 pdf_path output_path]))
| run_raised_after_save doc e' out evs :
    run (fitz_open env pdf_path) s = (inr doc, s) ->
    Forall pass_event evs ->
    (forall s1, files s1 = files s ->
                run (shutil_copy2 env pdf_path output_path) s1 = (inl e', s1)) ->
    run_outcome env pdf_path output_path s
      (inl NameError_traceback,
       mkState (files s)
         (stdout s ++ out ++ ["Unexpected error processing " +:+ pdf_path +:+ ": "
                              +:+ exn_msg e'])
         (calls s ++ evs ++ [EvClose]))
| run_raised_after_open e e' out :
    run (fitz_open env pdf_path) s = (inl e, s) ->
    (forall s1, files s1 = files s ->
                run (shutil_copy2 env pdf_path output_path) s1 = (inl e', s1)) ->
    run_outcome env pdf_path output_path s
      (inl NameError_traceback,
       mkState (files s)
         (stdout s ++ out ++ ["Unexpected error processing " +:+ pdf_path +:+ ": "
                              +:+ exn_msg e'])
         (calls s)).

(** * Properties *)

(** ** Strings *)

Section StringFacts.

Lemma isspace_lower_char (c : ascii) : isspace (lower_char c) = isspace c.
Proof. destruct c as [[] [] [] [] [] [] [] []]; reflexivity. Qed.

Lemma lower_char_idem (c : ascii) : lower_char (lower_char c) = lower_char c.
Proof. destruct c as [[] [] [] [] [] [] [] []]; reflexivity. Qed.

Lemma lower_idem (s : string) : lower (lower s) = lower s.
Proof. induction s as [|c s IH]; simpl; [reflexivity|]. by rewrite lower_char_idem, IH. Qed.

Lemma lower_length (s : string) : String.length (lower s) = String.length s.
Proof. induction s as [|c s IH]; simpl; congruence. Qed.

Lemma split_lower (s : string) : split (lower s) = map lower (split s).
Proof.
  induction s as [|c s IH]; [reflexivity|].
  cbn [lower split]. rewrite isspace_lower_char.
  destruct (isspace c); [exact IH|].
  destruct s as [|d s']; [reflexivity|].
  cbn [lower] in *. rewrite isspace_lower_char.
  destruct (isspace d) eqn:Hd.
  - cbn [map]. f_equal. exact IH.
  - rewrite IH. destruct (split (String d s')); reflexivity.
Qed.

(** Replacing one character by nothing keeps the other characters. *)
Lemma replace_char_filter (c : ascii) (s : string) :
  replace (String c EmptyString) EmptyString s
  = filter_chars (fun x => negb (Ascii.eqb c x)) s.
Proof.
  unfold replace. induction s as [|x s IH]; [reflexivity|].
  cbn [replace_from startswith filter_chars String.length Nat.sub].
  destruct (Ascii.eqb c x); cbn [negb]; [exact IH | by rewrite IH].
Qed.

Lemma filter_chars_twice (p q : ascii -> bool) (s : string) :
  filter_chars p (filter_chars q s) = filter_chars (fun x => q x && p x) s.
Proof.
  induction s as [|x s IH]; [reflexivity|]. cbn [filter_chars].
  destruct (q x); cbn [filter_chars andb]; [destruct (p x)|]; by rewrite ?IH.
Qed.

Lemma filter_chars_ext (p q : ascii -> bool) (s : string) :
  (forall x, p x = q x) -> filter_chars p s = filter_chars q s.
Proof.
  intros Hpq. induction s as [|x s IH]; [reflexivity|]. cbn [filter_chars].
  by rewrite Hpq, IH.
Qed.

End StringFacts.

Lemma normalize_text_filter (s : string) :
  normalize_text s = filter_chars kept_by_normalize (lower s).
Proof.
  unfold normalize_text. rewrite !replace_char_filter, !filter_chars_twice.
  apply filter_chars_ext. intros x. unfold kept_by_normalize.
  rewrite (Ascii.eqb_sym x "."), (Ascii.eqb_sym x "-"), (Ascii.eqb_sym x " ").
  destruct (Ascii.eqb "." x), (Ascii.eqb "-" x), (Ascii.eqb " " x); reflexivity.
Qed.

Lemma normalize_text_lower (s : string) : normalize_text (lower s) = normalize_text s.
Proof. unfold normalize_text. by rewrite lower_idem. Qed.

(** ** The ignore list *)

Lemma elem_of_normalized_terms (x : string) (T : gset string) :
  x ∈ normalized_terms T <-> exists term, term ∈ T /\ x = normalize_text term.
Proof.
  unfold normalized_terms. rewrite elem_of_map. split; intros (t & H1 & H2); eauto.
Qed.

Lemma should_ignore_words_true (words : list string) (T : gset string) :
  should_ignore_words words T = true <->
  exists word, word ∈ words /\ (word ∈ T \/ normalize_text word ∈ normalized_terms T).
Proof.
  induction words as [|w ws IH]; cbn [should_ignore_words].
  - split; [discriminate|]. intros (word & H & _). by apply elem_of_nil in H.
  - repeat case_bool_decide.
    + split; [|done]. intros _. exists w. split; [left|]; auto.
    + split; [|done]. intros _. exists w. split; [left|]; auto.
    + rewrite IH. split.
      * intros (word & Hin & Hw). exists word. split; [by right|done].
      * intros (word & Hin & Hw). apply elem_of_cons in Hin as [->|Hin].
        -- tauto.
        -- by exists word.
Qed.

(** C5: [normalize_text s] is [s] in lower case without its periods,
    hyphens and spaces; [normalize_text "ASP.NET"] is ["aspnet"]; and
    [should_ignore] compares these normalized forms: an entity whose
    normalized form is that of an ignore term is ignored. *)
Theorem C5_normalize_text :
  (forall s : string,
     normalize_text s
     = filter_chars (fun c => negb (Ascii.eqb c "." || Ascii.eqb c "-" || Ascii.eqb c " "))
         (lower s))
  /\ normalize_text "ASP.NET" = "aspnet"
  /\ (forall (e : string) (T : gset string) (t : option string) (term : string),
        term ∈ T -> normalize_text e = normalize_text term ->
        should_ignore e T t = true).
Proof.
  split; [exact normalize_text_filter|]. split; [reflexivity|].
  intros e T t term Hin Heq. unfold should_ignore.
  case_bool_decide; [reflexivity|].
  case_bool_decide as Hn; [reflexivity|].
  exfalso. apply Hn. apply elem_of_normalized_terms. eauto.
Qed.

(** ** Running the monad *)

Lemma extend_nil (s : state) : extend s [] [] = s.
Proof. destruct s. unfold extend. cbn. by rewrite !app_nil_r. Qed.

Lemma extend_extend (s : state) out1 evs1 out2 evs2 :
  extend (extend s out1 evs1) out2 evs2 = extend s (out1 ++ out2) (evs1 ++ evs2).
Proof. unfold extend. cbn. by rewrite !app_assoc. Qed.

Lemma files_extend s out evs : files (extend s out evs) = files s.
Proof. reflexivity. Qed.

(** Unfold the operations of the monad. *)
Ltac py_unfold :=
  cbv [run mbind Py_bind mret Py_ret lift log print raise try_except attempt
       try_finally].

Section MonadFacts.

Context {A B : Type}.

Lemma run_bind (c : Py A) (f : A -> Py B) (s : state) :
  run (c ≫= f) s
  = match run c s with
    | (inl e, s') => (inl e, s')
    | (inr a, s') => run (f a) s'
    end.
Proof. reflexivity. Qed.

Lemma run_try_except (c : Py A) (h : exn -> Py A) (s : state) :
  run (try_except c h) s
  = match run c s with
    | (inl e, s') => run (h e) s'
    | (inr a, s') => (inr a, s')
    end.
Proof. reflexivity. Qed.

Lemma returns_ret (a : A) : returns (mret a) a [].
Proof. intros s. exists []. by rewrite extend_nil. Qed.

Lemma returns_bind (c : Py A) (f : A -> Py B) a evs1 b evs2 :
  returns c a evs1 -> returns (f a) b evs2 -> returns (c ≫= f) b (evs1 ++ evs2).
Proof.
  intros Hc Hf s. destruct (Hc s) as [out1 H1].
  destruct (Hf (extend s out1 evs1)) as [out2 H2].
  exists (out1 ++ out2). rewrite run_bind, H1, H2. by rewrite extend_extend.
Qed.

Lemma total_quiet P (c : Py A) : total P c -> quiet P c.
Proof. intros H s. destruct (H s) as (a & out & evs & ? & ?). eauto 6. Qed.

Lemma returns_total (P : event -> Prop) (c : Py A) a evs :
  returns c a evs -> Forall P evs -> total P c.
Proof. intros H HP s. destruct (H s) as [out ?]. eauto 6. Qed.

Lemma total_ret P (a : A) : total P (mret a).
Proof. intros s. exists a, [], []. by rewrite extend_nil. Qed.

Lemma quiet_raise P (e : exn) : quiet P (raise e : Py A).
Proof. intros s. exists (inl e), [], []. by rewrite extend_nil. Qed.

Lemma quiet_lift P (r : exn + A) : quiet P (lift r).
Proof. intros s. exists r, [], []. by rewrite extend_nil. Qed.

Lemma quiet_bind P (c : Py A) (f : A -> Py B) :
  quiet P c -> (forall a, quiet P (f a)) -> quiet P (c ≫= f).
Proof.
  intros Hc Hf s. destruct (Hc s) as (r & out1 & evs1 & H1 & HP1).
  rewrite run_bind, H1. destruct r as [e|a].
  - exists (inl e), out1, evs1. done.
  - destruct (Hf a (extend s out1 evs1)) as (r2 & out2 & evs2 & H2 & HP2).
    exists r2, (out1 ++ out2), (evs1 ++ evs2).
    rewrite H2, extend_extend. split; [done|]. by apply Forall_app.
Qed.

Lemma total_bind P (c : Py A) (f : A -> Py B) :
  total P c -> (forall a, total P (f a)) -> total P (c ≫= f).
Proof.
  intros Hc Hf s. destruct (Hc s) as (a & out1 & evs1 & H1 & HP1).
  rewrite run_bind, H1.
  destruct (Hf a (extend s out1 evs1)) as (b & out2 & evs2 & H2 & HP2).
  exists b, (out1 ++ out2), (evs1 ++ evs2).
  rewrite H2, extend_extend. split; [done|]. by apply Forall_app.
Qed.

Lemma total_try_except P (c : Py A) (h : exn -> Py A) :
  quiet P c -> (forall e, total P (h e)) -> total P (try_except c h).
Proof.
  intros Hc Hh s. destruct (Hc s) as (r & out1 & evs1 & H1 & HP1).
  rewrite run_try_except, H1. destruct r as [e|a].
  - destruct (Hh e (extend s out1 evs1)) as (b & out2 & evs2 & H2 & HP2).
    exists b, (out1 ++ out2), (evs1 ++ evs2).
    rewrite H2, extend_extend. split; [done|]. by apply Forall_app.
  - exists a, out1, evs1. done.
Qed.

Lemma total_attempt P (c : Py A) : quiet P c -> total P (attempt c).
Proof.
  intros Hc s. destruct (Hc s) as (r & out & evs & H & HP).
  exists r, out, evs. unfold run, attempt in *. by rewrite H.
Qed.

End MonadFacts.

Lemma returns_print (line : string) : returns (print line) tt [].
Proof. intros s. exists [line]. unfold extend. cbn. by rewrite app_nil_r. Qed.

Lemma returns_log (ev : event) : returns (log ev) tt [ev].
Proof. intros s. exists []. unfold extend. cbn. by rewrite app_nil_r. Qed.

Lemma total_print P (line : string) : total P (print line).
Proof. eapply returns_total; [apply returns_print | constructor]. Qed.

Lemma total_log (P : event -> Prop) (ev : event) : P ev -> total P (log ev).
Proof. intros H. eapply returns_total; [apply returns_log | by repeat constructor]. Qed.

Section LoopFacts.

Context {A B : Type}.

Lemma returns_for_each (body : nat -> A -> B -> Py B) f g :
  (forall i x acc, returns (body i x acc) (f i x acc) (g i x)) ->
  forall xs i0 acc,
    returns (for_each body i0 xs acc) (foldi f i0 xs acc) (concat_mapi g i0 xs).
Proof.
  intros Hbody xs. induction xs as [|x xs IH]; intros i0 acc; cbn.
  - apply returns_ret.
  - eapply returns_bind; [apply Hbody | apply IH].
Qed.

Lemma total_for_each P (body : nat -> A -> B -> Py B) :
  (forall i x acc, total P (body i x acc)) ->
  forall xs i0 acc, total P (for_each body i0 xs acc).
Proof.
  intros Hbody xs. induction xs as [|x xs IH]; intros i0 acc; cbn.
  - apply total_ret.
  - apply total_bind; [apply Hbody | intros; apply IH].
Qed.

Lemma quiet_for_ P (xs : list A) (body : A -> Py unit) :
  (forall x, quiet P (body x)) -> quiet P (for_ xs body).
Proof.
  intros Hbody. induction xs as [|x xs IH]; cbn.
  - apply total_quiet, total_ret.
  - apply quiet_bind; [apply Hbody | intros; apply IH].
Qed.

Lemma returns_for_ (xs : list A) (body : A -> Py unit) (g : A -> list event) :
  (forall x, x ∈ xs -> returns (body x) tt (g x)) ->
  returns (for_ xs body) tt (concat (map g xs)).
Proof.
  induction xs as [|x xs IH]; intros Hbody; cbn.
  - apply returns_ret.
  - eapply returns_bind; [apply Hbody; left|].
    apply IH. intros y Hy. apply Hbody. by right.
Qed.

Lemma elem_of_concat_mapi {E} (g : nat -> A -> list E) (ev : E) xs i0 :
  ev ∈ concat_mapi g i0 xs <->
  exists i x, xs !! i = Some x /\ ev ∈ g (i0 + i)%nat x.
Proof.
  revert i0. induction xs as [|x xs IH]; intros i0; cbn.
  - split; [intros H; by apply elem_of_nil in H|]. intros (i & y & H & _). done.
  - rewrite elem_of_app, IH. split.
    + intros [H|(i & y & Hi & H)].
      * exists 0%nat, x. by rewrite Nat.add_0_r.
      * exists (S i), y. split; [done|]. by rewrite Nat.add_succ_r.
    + intros (i & y & Hi & H). destruct i as [|i]; cbn in Hi.
      * left. injection Hi as ->. by rewrite Nat.add_0_r in H.
      * right. exists i, y. split; [done|]. by rewrite Nat.add_succ_r in H.
Qed.

End LoopFacts.

(** ** The first pass *)

Lemma collect_spec (T : gset string) (p : nat) (text : string)
    (rs : list RecognizerResult) (acc : list entry * list string) :
  collect T p text rs acc
  = (acc.1 ++ map (fun r => (p, r, text_of text r)) (List.filter (kept T text) rs),
     acc.2 ++ map (text_of text)
                (List.filter (fun r => kept T text r && is_person r) rs)).
Proof.
  revert acc. induction rs as [|r rs IH]; intros [ents pers]; cbn [collect List.filter map].
  - by rewrite !app_nil_r.
  - assert (kept T text r
            = negb (should_ignore (slice text (start r) (end_ r)) T
                      (Some (entity_type r)))) as Hk by reflexivity.
    assert (is_person r = String.eqb (entity_type r) "PERSON") as Hp by reflexivity.
    rewrite Hk, Hp.
    destruct (should_ignore (slice text (start r) (end_ r)) T (Some (entity_type r)));
      cbn [negb andb].
    + apply IH.
    + rewrite IH. cbn [fst snd].
      destruct (String.eqb (entity_type r) "PERSON"); cbn [map];
        by rewrite <- ?app_assoc.
Qed.

Lemma first_pass_page_returns pdf_path analyzer T page_num page acc :
  returns (first_pass_page pdf_path analyzer T page_num page acc)
    (collect_page analyzer T page_num page acc) (analyze_calls page_num page).
Proof.
  intros s. unfold first_pass_page, collect_page, page_entries, page_persons,
    page_analysis, analyze_calls, analyze.
  py_unfold.
  destruct (get_text page) as [e|text]; cbn.
  - eexists [_]. unfold extend. cbn. rewrite !app_nil_r.
    destruct acc; reflexivity.
  - destruct (analyzer text entities_to_detect "en") as [e|results]; cbn.
    + eexists [_]. unfold extend. cbn. rewrite !app_nil_r. destruct acc; reflexivity.
    + exists []. unfold extend. cbn. rewrite !app_nil_r. by rewrite collect_spec.
Qed.

Lemma foldi_collect_page analyzer T pages i0 acc :
  foldi (collect_page analyzer T) i0 pages acc
  = (acc.1 ++ concat_mapi (page_entries analyzer T) i0 pages,
     acc.2 ++ concat_mapi (page_persons analyzer T) i0 pages).
Proof.
  revert i0 acc. induction pages as [|page pages IH]; intros i0 [ents pers]; cbn.
  - by rewrite !app_nil_r.
  - rewrite IH. cbn. by rewrite <- !app_assoc.
Qed.

(** The first pass returns the entries and the person names of all the
    pages, and makes one analysis request for each page that has a text. *)
Lemma first_pass_returns pdf_path analyzer T doc :
  returns (first_pass pdf_path analyzer T doc)
    (concat_mapi (page_entries analyzer T) 0 (pages doc),
     concat_mapi (page_persons analyzer T) 0 (pages doc))
    (concat_mapi analyze_calls 0 (pages doc)).
Proof.
  unfold first_pass.
  pose proof (returns_for_each (first_pass_page pdf_path analyzer T)
                (collect_page analyzer T) analyze_calls
                (first_pass_page_returns pdf_path analyzer T)
                (pages doc) 0%nat ([], [])) as H.
  by rewrite foldi_collect_page in H.
Qed.

Lemma elem_of_page_entries analyzer T page_num page (p : nat) r t :
  (p, r, t) ∈ page_entries analyzer T page_num page <->
  p = page_num /\
  exists text results,
    get_text page = inr text /\ analyzer text entities_to_detect "en" = inr results /\
    r ∈ results /\ t = text_of text r /\
    should_ignore t T (Some (entity_type r)) = false.
Proof.
  unfold page_entries, page_analysis.
  destruct (get_text page) as [e|text].
  { split; [intros H; by apply elem_of_nil in H|]. intros (_ & ? & ? & ? & _). done. }
  destruct (analyzer text entities_to_detect "en") as [e|results] eqn:Ha.
  { split; [intros H; by apply elem_of_nil in H|].
    intros (_ & ? & ? & [= <-] & ? & _). congruence. }
  rewrite list_elem_of_fmap. split.
  - intros (r' & [= -> -> ->] & Hin). apply list_elem_of_In, filter_In in Hin as [Hin Hk].
    split; [done|]. exists text, results. apply list_elem_of_In in Hin.
    unfold kept in Hk. apply negb_true_iff in Hk. done.
  - intros (-> & text' & results' & [= <-] & Ha' & Hin & -> & Hk).
    rewrite Ha in Ha'. injection Ha' as <-.
    exists r. split; [done|]. apply list_elem_of_In, filter_In.
    split; [by apply list_elem_of_In|]. unfold kept. by rewrite Hk.
Qed.

Lemma elem_of_page_persons analyzer T page_num page t :
  t ∈ page_persons analyzer T page_num page <->
  exists r, (page_num, r, t) ∈ page_entries analyzer T page_num page
            /\ entity_type r = "PERSON".
Proof.
  unfold page_persons, page_entries.
  destruct (page_analysis analyzer page) as [[text results]|].
  2:{ split; [intros H; by apply elem_of_nil in H|]. intros (? & H & _).
      by apply elem_of_nil in H. }
  rewrite list_elem_of_fmap. split.
  - intros (r & -> & Hin). apply list_elem_of_In, filter_In in Hin as [Hin Hk].
    apply andb_true_iff in Hk as [Hk Hp]. exists r. split.
    + apply list_elem_of_fmap. exists r. split; [done|].
      apply list_elem_of_In, filter_In. done.
    + by apply String.eqb_eq in Hp.
  - intros (r & Hin & Hp). apply list_elem_of_fmap in Hin as (r' & [= -> ->] & Hin).
    exists r'. split; [done|]. apply list_elem_of_In, filter_In in Hin as [Hin Hk].
    apply list_elem_of_In, filter_In. split; [done|].
    rewrite Hk. unfold is_person. rewrite Hp. reflexivity.
Qed.

Lemma should_ignore_true (e : string) (T : gset string) (t : option string) :
  should_ignore e T t = true <->
  lower e ∈ T
  \/ (exists term, term ∈ T /\ normalize_text e = normalize_text term)
  \/ (exists w, w ∈ split e /\
        (lower w ∈ T \/
         exists term, term ∈ T /\ normalize_text (lower w) = normalize_text term))
  \/ (t = Some "URL" /\
      exists tech, tech ∈ [".net"; "asp"; "flask"; "django"; "rails"]
                   /\ contains tech (lower e) = true).
Proof.
  unfold should_ignore.
  case_bool_decide as Ha. { split; [auto|done]. }
  case_bool_decide as Hb.
  { split; [|done]. intros _. right; left.
    apply elem_of_normalized_terms in Hb as (term & ? & ?). eauto. }
  destruct (should_ignore_words (split (lower e)) T) eqn:Hc.
  { split; [|done]. intros _. right; right; left.
    apply should_ignore_words_true in Hc as (word & Hin & Hw).
    rewrite split_lower in Hin. apply list_elem_of_fmap in Hin as (w & -> & Hin).
    exists w. split; [done|]. destruct Hw as [?|Hw]; [by left|right].
    apply elem_of_normalized_terms in Hw as (term & ? & ?). eauto. }
  destruct (bool_decide (t = Some "URL")
            && existsb (fun tech_term => contains tech_term (lower e)) url_tech_terms)
    eqn:Hd.
  { split; [|done]. intros _. right; right; right.
    apply andb_true_iff in Hd as [Ht Hx]. apply bool_decide_eq_true in Ht.
    apply existsb_exists in Hx as (tech & Hin & Hx). split; [done|].
    exists tech. split; [by apply list_elem_of_In|done]. }
  split; [done|]. intros [H|[H|[H|H]]].
  - done.
  - destruct H as (term & ? & ?). exfalso. apply Hb.
    apply elem_of_normalized_terms. eauto.
  - destruct H as (w & Hin & Hw).
    assert (should_ignore_words (split (lower e)) T = true) as H; [|congruence].
    apply should_ignore_words_true. exists (lower w). split.
    { rewrite split_lower. apply list_elem_of_fmap. eauto. }
    destruct Hw as [?|(term & ? & ?)]; [by left|right].
    apply elem_of_normalized_terms. eauto.
  - destruct H as (Ht & tech & Hin & Hx).
    assert (bool_decide (t = Some "URL")
            && existsb (fun tech_term => contains tech_term (lower e)) url_tech_terms
            = true) as H; [|congruence].
    apply andb_true_iff. split; [by apply bool_decide_eq_true|].
    apply existsb_exists. exists tech. split; [by apply list_elem_of_In|done].
Qed.

(** C1, as amended: [should_ignore e T t] is true exactly when (a) [e] in
    lower case is in [T], or (b) the normalized [e] is the normalized form
    of a term of [T], or (c) a word of [e], in lower case, is in [T] or
    has the normalized form of a term of [T], or (d) [t] is URL and [e]
    in lower case contains one of the five technology substrings; and
    the first pass of [redact_pdf] returns, with [all_results] holding
    exactly the results of the pages for which [should_ignore] is false
    and [found_persons] the texts of those of type PERSON. (That an
    ignored result is never redacted does not follow: see the
    counterexample.) *)
Theorem C1_should_ignore_filters_collection :
  (forall (e : string) (T : gset string) (t : option string),
     should_ignore e T t = true <->
     lower e ∈ T
     \/ (exists term, term ∈ T /\ normalize_text e = normalize_text term)
     \/ (exists w, w ∈ split e /\
           (lower w ∈ T \/
            exists term, term ∈ T /\ normalize_text (lower w) = normalize_text term))
     \/ (t = Some "URL" /\
         exists tech, tech ∈ [".net"; "asp"; "flask"; "django"; "rails"]
                      /\ contains tech (lower e) = true))
  /\ (forall (pdf_path : string) (analyzer : Analyzer) (T : gset string)
        (doc : Document) (s : state),
      exists all_results found_persons s',
        run (first_pass pdf_path analyzer T doc) s
        = (inr (all_results, found_persons), s')
        /\ (forall p r t,
              (p, r, t) ∈ all_results <->
              exists page text results,
                pages doc !! p = Some page /\ get_text page = inr text /\
                analyzer text ["PERSON"; "EMAIL_ADDRESS"; "PHONE_NUMBER"; "URL"] "en"
                = inr results /\
                r ∈ results /\ t = slice text (start r) (end_ r) /\
                should_ignore t T (Some (entity_type r)) = false)
        /\ (forall t,
              t ∈ found_persons <->
              exists p r, (p, r, t) ∈ all_results /\ entity_type r = "PERSON")).
Proof.
  split; [exact should_ignore_true|].
  intros pdf_path analyzer T doc s.
  destruct (first_pass_returns pdf_path analyzer T doc s) as [out Hrun].
  eexists _, _, _. split; [exact Hrun|]. split.
  - intros p r t. rewrite elem_of_concat_mapi. split.
    + intros (i & page & Hi & Hin). cbn in Hin.
      apply elem_of_page_entries in Hin as (-> & text & results & ?).
      exists page, text, results. done.
    + intros (page & text & results & Hp & H). exists p, page. split; [done|].
      cbn. apply elem_of_page_entries. split; [done|]. exists text, results. exact H.
  - intros t. rewrite elem_of_concat_mapi. split.
    + intros (i & page & Hi & Hin). cbn in Hin.
      apply elem_of_page_persons in Hin as (r & Hin & Hp).
      exists i, r. split; [|done]. apply elem_of_concat_mapi. exists i, page. done.
    + intros (p & r & Hin & Hp). apply elem_of_concat_mapi in Hin as (i & page & Hi & Hin).
      cbn in Hin. pose proof Hin as Hin'.
      apply elem_of_page_entries in Hin' as (-> & _).
      exists i, page. split; [done|]. cbn. apply elem_of_page_persons. eauto.
Qed.

(** Membership in [all_results] and [found_persons] after the first pass. *)
Lemma first_pass_membership pdf_path analyzer T doc s :
  exists all_results found_persons out,
    run (first_pass pdf_path analyzer T doc) s
    = (inr (all_results, found_persons),
       extend s out (concat_mapi analyze_calls 0 (pages doc)))
    /\ (forall p r t,
          (p, r, t) ∈ all_results <->
          exists page text results,
            pages doc !! p = Some page /\ get_text page = inr text /\
            analyzer text entities_to_detect "en" = inr results /\
            r ∈ results /\ t = slice text (start r) (end_ r) /\
            should_ignore t T (Some (entity_type r)) = false)
    /\ (forall t,
          t ∈ found_persons <->
          exists p r, (p, r, t) ∈ all_results /\ entity_type r = "PERSON").
Proof.
  destruct (first_pass_returns pdf_path analyzer T doc s) as [out Hrun].
  eexists _, _, out. split; [exact Hrun|]. split.
  - intros p r t. rewrite elem_of_concat_mapi. split.
    + intros (i & page & Hi & Hin). cbn in Hin.
      apply elem_of_page_entries in Hin as (-> & text & results & ?).
      exists page, text, results. done.
    + intros (page & text & results & Hp & H). exists p, page. split; [done|].
      cbn. apply elem_of_page_entries. split; [done|]. exists text, results. exact H.
  - intros t. rewrite elem_of_concat_mapi. split.
    + intros (i & page & Hi & Hin). cbn in Hin.
      apply elem_of_page_persons in Hin as (r & Hin & Hp).
      exists i, r. split; [|done]. apply elem_of_concat_mapi. exists i, page. done.
    + intros (p & r & Hin & Hp). apply elem_of_concat_mapi in Hin as (i & page & Hi & Hin).
      cbn in Hin. pose proof Hin as Hin'.
      apply elem_of_page_entries in Hin' as (-> & _).
      exists i, page. split; [done|]. cbn. apply elem_of_page_persons. eauto.
Qed.

(** ** The second pass *)

Lemma Qltb_lt (a b : Q) : Qltb a b = true <-> (a < b)%Q.
Proof.
  unfold Qltb. rewrite negb_true_iff. split.
  - intros H. apply Qnot_le_lt. intros Hle. apply Qle_bool_iff in Hle. congruence.
  - intros H. destruct (Qle_bool b a) eqn:E; [|reflexivity].
    apply Qle_bool_iff in E. exfalso. by apply (Qlt_not_le a b).
Qed.

Lemma elem_of_dict_set (x key : string) (d : list string) :
  x ∈ dict_set key d <-> x ∈ d \/ x = key.
Proof.
  unfold dict_set. case_bool_decide.
  - split; [auto|]. intros [?| ->]; done.
  - rewrite elem_of_app, list_elem_of_singleton. done.
Qed.

(** A fold whose steps only add elements. *)
Lemma elem_of_fold_left_grow {A} (f : list string -> A -> list string)
    (Q : A -> string -> Prop) (x : string) :
  (forall acc a, x ∈ f acc a <-> x ∈ acc \/ Q a x) ->
  forall l acc, x ∈ fold_left f l acc <-> x ∈ acc \/ exists a, a ∈ l /\ Q a x.
Proof.
  intros Hf l. induction l as [|a l IH]; intros acc; cbn.
  - split; [auto|]. intros [?|(a & H & _)]; [done|]. by apply elem_of_nil in H.
  - rewrite IH, Hf. split.
    + intros [[?|?]|(b & ? & ?)]; [by left| |].
      * right. exists a. split; [left|done].
      * right. exists b. split; [by right|done].
    + intros [?|(b & Hb & ?)]; [by left; left|].
      apply elem_of_cons in Hb as [->|Hb]; [by left; right|].
      right. by exists b.
Qed.

Lemma elem_of_foldi_grow {A} (f : nat -> A -> list string -> list string)
    (Q : nat -> A -> string -> Prop) (x : string) :
  (forall i a acc, x ∈ f i a acc <-> x ∈ acc \/ Q i a x) ->
  forall l i0 acc,
    x ∈ foldi f i0 l acc <->
    x ∈ acc \/ exists i a, l !! i = Some a /\ Q (i0 + i)%nat a x.
Proof.
  intros Hf l. induction l as [|a l IH]; intros i0 acc; cbn.
  - split; [auto|]. intros [?|(i & b & H & _)]; done.
  - rewrite IH, Hf. split.
    + intros [[?|?]|(i & b & ? & ?)]; [by left| |].
      * right. exists 0%nat, a. by rewrite Nat.add_0_r.
      * right. exists (S i), b. by rewrite Nat.add_succ_r.
    + intros [?|(i & b & Hi & HQ)]; [by left; left|].
      destruct i as [|i]; cbn in Hi.
      * injection Hi as ->. rewrite Nat.add_0_r in HQ. by left; right.
      * right. exists i, b. by rewrite Nat.add_succ_r in HQ.
Qed.

Section SecondPass.

Context (env : Env).

Lemma variant_test_spec (potential_name person : string) :
  variant_test env potential_name person = true <-> is_variant_of env potential_name person.
Proof.
  unfold variant_test, is_variant_of.
  rewrite !andb_true_iff, negb_true_iff, Nat.leb_le, !Qltb_lt, String.eqb_neq.
  tauto.
Qed.

Lemma elem_of_check_persons (x potential_name : string) found_persons name_variants :
  x ∈ check_persons env potential_name found_persons name_variants <->
  x ∈ name_variants
  \/ (x = potential_name /\
      exists person, person ∈ found_persons /\ is_variant_of env potential_name person).
Proof.
  revert name_variants.
  induction found_persons as [|person rest IH]; intros name_variants;
    cbn [check_persons].
  - split; [auto|]. intros [?|(_ & p & H & _)]; [done|]. by apply elem_of_nil in H.
  - rewrite IH. clear IH.
    assert ((if (8 <=? String.length person)%nat
             then if Qltb (8 # 10) (similar env potential_name person)
                     && Qltb (similar env potential_name person) 1
                     && negb (String.eqb (lower potential_name) (lower person))
                  then dict_set potential_name name_variants
                  else name_variants
             else name_variants)
            = if variant_test env potential_name person
              then dict_set potential_name name_variants else name_variants) as ->.
    { unfold variant_test. by destruct (8 <=? String.length person)%nat. }
    pose proof (variant_test_spec potential_name person) as Hspec.
    destruct (variant_test env potential_name person).
    + assert (is_variant_of env potential_name person) as Hd by by apply Hspec.
      rewrite elem_of_dict_set. split.
      * intros [[?| ->]|(-> & p & Hp & Hv)]; [by left| |].
        -- right. split; [done|]. exists person. split; [left|done].
        -- right. split; [done|]. exists p. split; [by right|done].
      * intros [?|(-> & p & Hp & Hv)]; [by left; left|]. by left; right.
    + assert (~ is_variant_of env potential_name person) as Hd.
      { intros Hv. apply Hspec in Hv. discriminate. }
      split.
      * intros [?|(-> & p & Hp & Hv)]; [by left|].
        right. split; [done|]. exists p. split; [by right|done].
      * intros [?|(-> & p & Hp & Hv)]; [by left|].
        apply elem_of_cons in Hp as [->|Hp]; [done|].
        right. split; [done|]. by exists p.
Qed.

Lemma elem_of_check_lengths (x : string) words found_persons i name_variants :
  x ∈ check_lengths env words found_persons i name_variants <->
  x ∈ name_variants \/ exists n, recorded_at env found_persons words i n x.
Proof.
  unfold check_lengths.
  rewrite (elem_of_fold_left_grow _
             (fun n x => (i + n <= length words)%nat
                         /\ x = word_sequence words i n
                         /\ (8 <= String.length x)%nat
                         /\ exists person, person ∈ found_persons
                                           /\ is_variant_of env x person)).
  - split; (intros [?|(n & Hn & H)]; [by left|right]); exists n.
    + split; [|done].
      repeat (apply elem_of_cons in Hn as [->|Hn]); [lia..|].
      by apply elem_of_nil in Hn.
    + destruct Hn as [Hn H']. split; [|done].
      assert (n = 2 \/ n = 3 \/ n = 4)%nat as [->|[->| ->]] by lia;
        repeat constructor.
  - intros acc n. fold (word_sequence words i n).
    destruct (i + n <=? length words)%nat eqn:Hle.
    + apply Nat.leb_le in Hle.
      destruct (String.length (word_sequence words i n) <? 8)%nat eqn:Hlen.
      * apply Nat.ltb_lt in Hlen. split; [auto|].
        intros [?|(_ & -> & ? & _)]; [done|lia].
      * apply Nat.ltb_ge in Hlen. rewrite elem_of_check_persons. split.
        -- intros [?|(-> & ?)]; [by left|by right].
        -- intros [?|(_ & -> & _ & ?)]; [by left|by right].
    + apply Nat.leb_gt in Hle. split; [auto|]. intros [?|(? & _)]; [done|lia].
Qed.

Lemma elem_of_check_words (x : string) words found_persons name_variants :
  x ∈ check_words env words found_persons name_variants <->
  x ∈ name_variants \/ exists i n, recorded_at env found_persons words i n x.
Proof.
  unfold check_words.
  rewrite (elem_of_fold_left_grow _
             (fun i x => exists n, recorded_at env found_persons words i n x)).
  - split; (intros [?|H]; [by left|right]).
    + destruct H as (i & _ & n & H). eauto.
    + destruct H as (i & n & H). exists i. split; [|eauto].
      apply list_elem_of_In, in_seq. destruct H as (? & ? & _). lia.
  - intros acc i. apply elem_of_check_lengths.
Qed.

Lemma second_pass_page_returns pdf_path found_persons page_num page name_variants :
  returns (second_pass_page env pdf_path found_persons page_num page name_variants)
    (variants_page env found_persons page_num page name_variants) [].
Proof.
  intros s. unfold second_pass_page, variants_page. py_unfold.
  destruct (get_text page) as [e|text]; cbn.
  - eexists [_]. unfold extend. cbn. by rewrite !app_nil_r.
  - exists []. by rewrite extend_nil.
Qed.

Lemma concat_mapi_nil {A} (xs : list A) i0 :
  concat_mapi (fun (_ : nat) (_ : A) => @nil event) i0 xs = [].
Proof. revert i0. induction xs as [|x xs IH]; intros i0; cbn; [done|apply IH]. Qed.

(** The second pass returns, logs nothing, and records exactly the
    candidates that pass the test on some page. *)
Lemma second_pass_membership pdf_path found_persons doc s :
  exists name_variants out,
    run (second_pass env pdf_path found_persons doc) s
    = (inr name_variants, extend s out [])
    /\ forall x,
         x ∈ name_variants <->
         exists page_num page text i n,
           pages doc !! page_num = Some page /\ get_text page = inr text
           /\ recorded_at env found_persons (split text) i n x.
Proof.
  unfold second_pass.
  pose proof (returns_for_each (second_pass_page env pdf_path found_persons)
                (variants_page env found_persons) (fun _ _ => [])
                (second_pass_page_returns pdf_path found_persons)
                (pages doc) 0%nat [] s) as [out Hrun].
  rewrite concat_mapi_nil in Hrun.
  eexists _, out. split; [exact Hrun|]. intros x.
  rewrite (elem_of_foldi_grow _
             (fun _ page x => exists text i n,
                  get_text page = inr text
                  /\ recorded_at env found_persons (split text) i n x)).
  - split.
    + intros [H|(pn & page & Hp & text & i & n & H)]; [by apply elem_of_nil in H|].
      exists pn, page, text, i, n. done.
    + intros (pn & page & text & i & n & Hp & H). right.
      exists pn, page. split; [done|]. exists text, i, n. done.
  - intros i page acc. unfold variants_page.
    destruct (get_text page) as [e|text].
    + split; [auto|]. intros [?|(? & ? & ? & ? & _)]; done.
    + rewrite elem_of_check_words. split.
      * intros [?|(j & n & H)]; [by left|right]. exists text, j, n. done.
      * intros [?|(text' & j & n & [= <-] & H)]; [by left|right]. eauto.
Qed.

End SecondPass.

(** C2: the first two passes return, and a sequence of [n] consecutive
    words of a page, [2 <= n <= 4], joined by spaces, is a key of
    [name_variants] exactly when it has at least 8 characters and some
    PERSON entity collected in the first pass has at least 8 characters, a
    case-insensitive similarity ratio with the sequence strictly between
    0.8 and 1.0, and a lowercased form other than that of the sequence. *)
Theorem C2_name_variants (env : Env) (pdf_path : string) (analyzer : Analyzer)
    (T : gset string) (doc : Document) (s : state) :
  exists all_results found_persons s1 name_variants s2,
    run (first_pass pdf_path analyzer T doc) s = (inr (all_results, found_persons), s1)
    /\ run (second_pass env pdf_path found_persons doc) s1 = (inr name_variants, s2)
    /\ forall (page_num : nat) (page : Page) (text : string) (i n : nat),
         pages doc !! page_num = Some page -> get_text page = inr text ->
         (2 <= n <= 4)%nat -> (i + n <= length (split text))%nat ->
         let sequence := join " " (firstn n (skipn i (split text))) in
         sequence ∈ name_variants <->
         (8 <= String.length sequence)%nat
         /\ exists p r person,
              (p, r, person) ∈ all_results /\ entity_type r = "PERSON"
              /\ (8 <= String.length person)%nat
              /\ (8 # 10 < SequenceMatcher_ratio env (lower sequence) (lower person))%Q
              /\ (SequenceMatcher_ratio env (lower sequence) (lower person) < 1)%Q
              /\ lower person <> lower sequence.
Proof.
  destruct (first_pass_membership pdf_path analyzer T doc s)
    as (all_results & found_persons & out1 & Hrun1 & _ & Hpers).
  destruct (second_pass_membership env pdf_path found_persons doc
              (extend s out1 (concat_mapi analyze_calls 0 (pages doc))))
    as (name_variants & out2 & Hrun2 & Hvar).
  eexists all_results, found_persons, _, name_variants, _.
  split; [exact Hrun1|]. split; [exact Hrun2|].
  intros page_num page text i n Hpage Htext Hn Hi sequence.
  rewrite Hvar. split.
  - intros (pn & pg & tx & j & m & _ & _ & _ & _ & Hx & Hlen & person & Hin & Hv).
    split; [done|]. apply Hpers in Hin as (p & r & Hin & Htype).
    destruct Hv as (H8 & H1 & H2 & H3). exists p, r, person.
    unfold similar in *. repeat split; try done; congruence.
  - intros (Hlen & p & r & person & Hin & Htype & H8 & H1 & H2 & H3).
    exists page_num, page, text, i, n. split; [done|]. split; [done|].
    split; [done|]. split; [done|]. split; [done|]. split; [done|].
    exists person. split; [apply Hpers; eauto|].
    unfold is_variant_of, similar. repeat split; try done; congruence.
Qed.

(** ** The redaction pass *)

Lemma returns_try_except {A} (c : Py A) (h : exn -> Py A) a evs :
  returns c a evs -> returns (try_except c h) a evs.
Proof.
  intros Hc s. destruct (Hc s) as [out H]. exists out.
  rewrite run_try_except. by rewrite H.
Qed.

Lemma extend_inj (s : state) out1 evs1 out2 evs2 :
  extend s out1 evs1 = extend s out2 evs2 -> out1 = out2 /\ evs1 = evs2.
Proof.
  unfold extend. intros [= H1 H2]. split; by eapply app_inv_head.
Qed.

Section Completes.

Context (P : event -> Prop).

Lemma completes_ret {A} (a : A) : completes (mret a) a [] True P.
Proof. intros s. left. exists []. by rewrite extend_nil. Qed.

Lemma completes_iff {A} (c : Py A) a evs (Ok Ok' : Prop) :
  (Ok <-> Ok') -> completes c a evs Ok P -> completes c a evs Ok' P.
Proof.
  intros Hiff Hc s.
  destruct (Hc s) as [(out & H & HOk)|(e & out & evs' & H & HP & Hpre & HOk)].
  - left. exists out. split; [done|]. by apply Hiff.
  - right. exists e, out, evs'. repeat split; try done. by rewrite <- Hiff.
Qed.

Lemma completes_bind {A B} (c : Py A) (f : A -> Py B) a evs1 Ok1 b evs2 Ok2 :
  completes c a evs1 Ok1 P -> Forall P evs1 -> completes (f a) b evs2 Ok2 P ->
  completes (c ≫= f) b (evs1 ++ evs2) (Ok1 /\ Ok2) P.
Proof.
  intros Hc HP1 Hf s. rewrite run_bind.
  destruct (Hc s) as [(out1 & H1 & HOk1)|(e & out1 & evs' & H1 & HP & Hpre & HOk1)];
    rewrite H1.
  - destruct (Hf (extend s out1 evs1))
      as [(out2 & H2 & HOk2)|(e & out2 & evs' & H2 & HP & Hpre & HOk2)];
      rewrite H2, extend_extend.
    + left. exists (out1 ++ out2). done.
    + right. exists e, (out1 ++ out2), (evs1 ++ evs'). split; [done|].
      split; [by apply Forall_app|]. split; [by apply prefix_app|]. tauto.
  - right. exists e, out1, evs'. split; [done|]. split; [done|].
    split; [by apply prefix_app_r|]. tauto.
Qed.

Lemma completes_for_ {A} (xs : list A) (body : A -> Py unit) (g : A -> list event)
    (ok : A -> Prop) :
  (forall x, x ∈ xs -> completes (body x) tt (g x) (ok x) P) ->
  (forall x, x ∈ xs -> Forall P (g x)) ->
  completes (for_ xs body) tt (concat (map g xs)) (forall x, x ∈ xs -> ok x) P.
Proof.
  induction xs as [|x xs IH]; intros Hbody HP; cbn [for_ map concat].
  - eapply completes_iff; [|apply completes_ret]. split; [|done].
    intros _ x Hx. by apply elem_of_nil in Hx.
  - apply completes_iff with (Ok := ok x /\ forall y, y ∈ xs -> ok y);
      [|apply completes_bind with (a := tt)].
    + split.
      * intros [Hx Hxs] y Hy. apply elem_of_cons in Hy as [->|Hy]; [exact Hx|by apply Hxs].
      * intros H. split; [apply H; left|]. intros y Hy. apply H. by right.
    + apply Hbody. left.
    + apply HP. left.
    + apply IH; intros y Hy; [apply Hbody|apply HP]; by right.
Qed.

End Completes.

Lemma run_lift {A} (r : exn + A) (s : state) : run (lift r) s = (r, s).
Proof. reflexivity. Qed.

Section PageCalls.

Context (page_num : nat) (page : Page).

Lemma add_redact_annot_completes (rect : Rect) :
  completes (add_redact_annot page_num page (enlarge rect) (0, 0, 0)%Z) tt
    [EvAddRedactAnnot page_num (enlarge rect) (0, 0, 0)%Z]
    (add_redact_annot_error page (enlarge rect) = None)
    (search_or_annot page_num).
Proof.
  intros s. unfold add_redact_annot.
  destruct (add_redact_annot_error page (enlarge rect)) as [e|].
  - right. exists e, [], []. rewrite extend_nil.
    split; [done|]. split; [constructor|]. split; [apply prefix_nil|done].
  - left. destruct (returns_log (EvAddRedactAnnot page_num (enlarge rect) (0, 0, 0)%Z) s)
      as [out H]. eauto.
Qed.

Lemma redact_rects_completes (rects : list Rect) :
  completes (redact_rects page_num page rects) tt
    (map (fun rect => EvAddRedactAnnot page_num (enlarge rect) (0, 0, 0)%Z) rects)
    (forall rect, rect ∈ rects -> add_redact_annot_error page (enlarge rect) = None)
    (search_or_annot page_num).
Proof.
  unfold redact_rects.
  replace (map (fun rect => EvAddRedactAnnot page_num (enlarge rect) (0, 0, 0)%Z) rects)
    with (concat (map (fun rect => [EvAddRedactAnnot page_num (enlarge rect) (0, 0, 0)%Z])
                    rects)).
  - apply (completes_for_ _ rects
             (fun rect => add_redact_annot page_num page (enlarge rect) (0, 0, 0)%Z)
             (fun rect => [EvAddRedactAnnot page_num (enlarge rect) (0, 0, 0)%Z])
             (fun rect => add_redact_annot_error page (enlarge rect) = None)).
    + intros rect _. apply add_redact_annot_completes.
    + intros rect _. by repeat constructor.
  - induction rects as [|r rs IH]; cbn; [done|by rewrite IH].
Qed.

Lemma search_and_redact_calls_events (needle : string) :
  Forall (search_or_annot page_num) (search_and_redact_calls page_num page needle).
Proof.
  unfold search_and_redact_calls. constructor; [done|].
  destruct (search_for page (strip needle)) as [e|rects]; [constructor|].
  apply Forall_forall. intros ev Hev. apply in_map_iff in Hev as (rect & <- & _). done.
Qed.

Lemma search_and_redact_completes (needle : string) :
  completes (text_instances ← find_text_on_page page_num page needle;
             redact_rects page_num page text_instances)
    tt (search_and_redact_calls page_num page needle)
    (needle_calls_ok page needle) (search_or_annot page_num).
Proof.
  intros s. unfold find_text_on_page, search_and_redact_calls, needle_calls_ok.
  rewrite !run_bind.
  destruct (returns_log (EvSearchFor page_num (strip needle)) s) as [out0 Hlog].
  rewrite Hlog, run_lift.
  destruct (search_for page (strip needle)) as [e|rects] eqn:Hs.
  - right. exists e, out0, [EvSearchFor page_num (strip needle)].
    split; [done|]. split; [by repeat constructor|]. split; [done|].
    intros (rects & H & _). done.
  - destruct (redact_rects_completes rects
                (extend s out0 [EvSearchFor page_num (strip needle)]))
      as [(out & H & HOk)|(e & out & evs' & H & HP & Hpre & HOk)];
      rewrite H, extend_extend.
    + left. exists (out0 ++ out). split; [done|]. eauto.
    + right. exists e, (out0 ++ out), ([EvSearchFor page_num (strip needle)] ++ evs').
      split; [done|]. split; [constructor; done|].
      split; [by apply (prefix_cons (EvSearchFor page_num (strip needle)))|].
      intros (rects' & [= <-] & Hall). by apply HOk.
Qed.

Lemma entity_needles_calls (all_results : list entry) :
  concat (map (fun e : entry =>
                 if (e.1.1 =? page_num)%nat
                 then search_and_redact_calls page_num page e.2 else [])
            all_results)
  = concat (map (search_and_redact_calls page_num page)
              (map (fun e : entry => e.2)
                 (List.filter (fun e : entry => (e.1.1 =? page_num)%nat) all_results))).
Proof.
  induction all_results as [|[[p r] t] rest IH]; cbn; [done|].
  destruct (p =? page_num)%nat; cbn; by rewrite IH.
Qed.

Lemma needles_calls_events (needles : list string) :
  Forall (search_or_annot page_num)
    (concat (map (search_and_redact_calls page_num page) needles)).
Proof.
  induction needles as [|n ns IH]; cbn [map concat]; [constructor|].
  apply Forall_app. split; [apply search_and_redact_calls_events|apply IH].
Qed.

(** The body of the [try] of the redaction pass on one page. *)
Lemma redact_page_body_completes (all_results : list entry)
    (name_variants : list string) :
  completes
    (for_ all_results
       (fun '(page_idx, result, entity_text) =>
          if (page_idx =? page_num)%nat then
            text_instances ← find_text_on_page page_num page entity_text;
            redact_rects page_num page text_instances
          else mret tt);;
     for_ name_variants
       (fun variant =>
          text_instances ← find_text_on_page page_num page variant;
          redact_rects page_num page text_instances);;
     apply_redactions page_num page)
    tt (page_redaction_calls all_results name_variants page_num page)
    (page_calls_ok all_results name_variants page_num page)
    (search_or_annot page_num).
Proof.
  unfold page_redaction_calls, needles_on_page.
  rewrite map_app, concat_app, <- entity_needles_calls, <- app_assoc.
  apply completes_iff
    with (Ok := (forall e : entry, e ∈ all_results ->
                   (e.1.1 =? page_num)%nat = true -> needle_calls_ok page e.2)
                /\ (forall v, v ∈ name_variants -> needle_calls_ok page v)
                /\ apply_redactions_error page = None);
    [|apply completes_bind with (a := tt); [| |apply completes_bind with (a := tt)]].
  - unfold page_calls_ok, needles_on_page. split.
    + intros (Hent & Hvar & Happly). split; [|exact Happly].
      intros n Hn. apply elem_of_app in Hn as [Hn|Hn]; [|by apply Hvar].
      apply list_elem_of_fmap in Hn as (e & -> & He).
      apply list_elem_of_In, filter_In in He as [He Hp].
      apply (Hent e); [by apply list_elem_of_In|exact Hp].
    + intros [Hn Happly]. split; [|split; [|exact Happly]].
      * intros e He Hp. apply Hn. apply elem_of_app. left.
        apply list_elem_of_fmap. exists e. split; [done|].
        apply list_elem_of_In, filter_In. split; [by apply list_elem_of_In|exact Hp].
      * intros v Hv. apply Hn. apply elem_of_app. by right.
  - apply (completes_for_ _ all_results _
             (fun e : entry =>
                if (e.1.1 =? page_num)%nat
                then search_and_redact_calls page_num page e.2 else [])
             (fun e : entry => (e.1.1 =? page_num)%nat = true -> needle_calls_ok page e.2)).
    + intros [[p r] t] _. cbn [fst snd]. destruct (p =? page_num)%nat.
      * eapply completes_iff; [|apply search_and_redact_completes]. tauto.
      * eapply completes_iff; [|apply completes_ret]. split; [intros _; discriminate|done].
    + intros [[p r] t] _. cbn [fst snd]. destruct (p =? page_num)%nat;
        [apply search_and_redact_calls_events|constructor].
  - rewrite entity_needles_calls. apply needles_calls_events.
  - apply (completes_for_ _ name_variants _
             (search_and_redact_calls page_num page) (needle_calls_ok page)).
    + intros v _. apply search_and_redact_completes.
    + intros v _. apply search_and_redact_calls_events.
  - apply needles_calls_events.
  - intros s. unfold apply_redactions.
    destruct (apply_redactions_error page) as [e|].
    + right. exists e, [], []. rewrite extend_nil.
      split; [done|]. split; [constructor|]. split; [apply prefix_nil|done].
    + left. destruct (returns_log (EvApplyRedactions page_num) s) as [out H]. eauto.
Qed.

(** The calls of the redaction pass on one page: the full list when no
    call raises, and otherwise searches and annotations only. *)
Lemma redact_page_outcome pdf_path all_results name_variants s :
  exists out seg,
    run (redact_page pdf_path all_results name_variants page_num page tt) s
    = (inr tt, extend s out seg)
    /\ ((seg = page_redaction_calls all_results name_variants page_num page
         /\ page_calls_ok all_results name_variants page_num page)
        \/ (Forall (search_or_annot page_num) seg
            /\ seg `prefix_of` page_redaction_calls all_results name_variants page_num page
            /\ ~ page_calls_ok all_results name_variants page_num page)).
Proof.
  unfold redact_page. rewrite run_try_except.
  destruct (redact_page_body_completes all_results name_variants s)
    as [(out & H & HOk)|(e & out & evs' & H & HP & Hpre & HOk)]; rewrite H.
  - exists out, (page_redaction_calls all_results name_variants page_num page).
    split; [done|]. by left.
  - match goal with |- context [run (print ?m) _] =>
      destruct (returns_print m (extend s out evs')) as [out' Hp]
    end.
    rewrite Hp, extend_extend, app_nil_r. exists (out ++ out'), evs'.
    split; [done|]. by right.
Qed.

Lemma redact_page_segment_calls pdf_path all_results name_variants s :
  exists out seg,
    run (redact_page pdf_path all_results name_variants page_num page tt) s
    = (inr tt, extend s out seg)
    /\ Forall (on_page page_num) seg
    /\ seg `prefix_of` page_redaction_calls all_results name_variants page_num page
    /\ (page_calls_ok all_results name_variants page_num page <->
        seg = page_redaction_calls all_results name_variants page_num page)
    /\ (page_calls_ok all_results name_variants page_num page <->
        EvApplyRedactions page_num ∈ seg).
Proof.
  assert (forall evs, Forall (search_or_annot page_num) evs ->
                      Forall (on_page page_num) evs) as Hon.
  { intros evs. apply Forall_impl. by intros []. }
  assert (forall evs, Forall (search_or_annot page_num) evs ->
                      EvApplyRedactions page_num ∉ evs) as Hno.
  { intros evs HP Hin. rewrite list.Forall_forall in HP. by apply HP in Hin. }
  assert (EvApplyRedactions page_num
          ∈ page_redaction_calls all_results name_variants page_num page) as Hlast.
  { unfold page_redaction_calls. apply elem_of_app. right. constructor. }
  destruct (redact_page_outcome pdf_path all_results name_variants s)
    as (out & seg & Hrun & [[-> HOk]|(HP & Hpre & HOk)]); eexists out, _;
    (split; [exact Hrun|]).
  - split; [|done]. unfold page_redaction_calls. apply Forall_app. split.
    + apply Hon, needles_calls_events.
    + by repeat constructor.
  - split; [by apply Hon|]. split; [exact Hpre|]. split; (split; [done|]).
    + intros ->. by apply Hno in Hlast.
    + intros Hin. by apply Hno in Hin.
Qed.

End PageCalls.

Lemma redaction_loop_returns_ok pdf_path all_results name_variants (pgs : list Page) :
  forall i0,
    (forall k page, pgs !! k = Some page ->
                    page_calls_ok all_results name_variants (i0 + k) page) ->
    returns (for_each (redact_page pdf_path all_results name_variants) i0 pgs tt) tt
      (concat_mapi (page_redaction_calls all_results name_variants) i0 pgs).
Proof.
  induction pgs as [|page pgs IH]; intros i0 Hok; cbn [for_each concat_mapi].
  - apply returns_ret.
  - eapply returns_bind.
    + intros s.
      destruct (redact_page_outcome i0 page pdf_path all_results name_variants s)
        as (out & seg & Hrun & [[-> _]|(_ & _ & Hno)]); [eauto|].
      exfalso. apply Hno. specialize (Hok 0%nat page eq_refl).
      by rewrite Nat.add_0_r in Hok.
    + apply IH. intros k pg Hk. specialize (Hok (S k) pg Hk).
      by rewrite Nat.add_succ_r in Hok.
Qed.

Lemma redaction_loop_segments_calls pdf_path all_results name_variants (pgs : list Page) :
  forall i0 s,
  exists out segs,
    run (for_each (redact_page pdf_path all_results name_variants) i0 pgs tt) s
    = (inr tt, extend s out (concat segs))
    /\ length segs = length pgs
    /\ forall k page seg,
         pgs !! k = Some page -> segs !! k = Some seg ->
         Forall (on_page (i0 + k)) seg
         /\ seg `prefix_of` page_redaction_calls all_results name_variants (i0 + k) page
         /\ (page_calls_ok all_results name_variants (i0 + k) page <->
             seg = page_redaction_calls all_results name_variants (i0 + k)%nat page)
         /\ (page_calls_ok all_results name_variants (i0 + k) page <->
             EvApplyRedactions (i0 + k) ∈ seg).
Proof.
  induction pgs as [|page pgs IH]; intros i0 s; cbn [for_each].
  - exists [], []. split; [by rewrite extend_nil|]. split; [done|]. intros k ? ? Hk. done.
  - destruct (redact_page_segment_calls i0 page pdf_path all_results name_variants s)
      as (out1 & seg1 & Hrun1 & Hseg1).
    rewrite run_bind, Hrun1.
    destruct (IH (S i0) (extend s out1 seg1)) as (out2 & segs & Hrun2 & Hlen & Hsegs).
    exists (out1 ++ out2), (seg1 :: segs). rewrite Hrun2, extend_extend.
    split; [reflexivity|]. split; [cbn; by rewrite Hlen|].
    intros k pg seg Hk Hseg. destruct k as [|k]; cbn in Hk, Hseg.
    + injection Hk as <-. injection Hseg as <-. rewrite Nat.add_0_r. done.
    + rewrite Nat.add_succ_r. by apply Hsegs.
Qed.

(** C3: the redaction pass returns, and its calls are one run of calls
    for each page, in the order of the pages. The calls for a page are
    always the first calls of this list: for each collected entity
    detected on that page and then for each name variant, the search for
    the text followed, for every rectangle the search returns, by a
    redaction annotation on [(x0-2, y0-2, x1+2, y1+2)] with fill
    [(0, 0, 0)]; and then one [apply_redactions] for the page. They are
    the whole list when no call on the page raises, and they have no
    [apply_redactions] when one does. So an entity is searched for only
    on its own page; and when no call of the pass raises, a variant is
    searched for on every page and [apply_redactions] comes once per
    page, after its annotations. *)
Theorem C3_redaction_pass (pdf_path : string) (all_results : list entry)
    (name_variants : list string) (doc : Document) (s : state) :
  exists out segs,
    run (redaction_pass pdf_path all_results name_variants doc) s
    = (inr tt, extend s out (concat segs))
    /\ length segs = length (pages doc)
    /\ (forall k page seg,
          pages doc !! k = Some page -> segs !! k = Some seg ->
          seg `prefix_of` page_redaction_calls all_results name_variants k page
          /\ (page_calls_ok all_results name_variants k page ->
              seg = page_redaction_calls all_results name_variants k page)
          /\ (~ page_calls_ok all_results name_variants k page ->
              EvApplyRedactions k ∉ seg))
    /\ ((forall k page, pages doc !! k = Some page ->
                        page_calls_ok all_results name_variants k page) ->
        concat segs
        = concat_mapi (page_redaction_calls all_results name_variants) 0 (pages doc)).
Proof.
  unfold redaction_pass.
  destruct (redaction_loop_segments_calls pdf_path all_results name_variants
              (pages doc) 0%nat s) as (out & segs & Hrun & Hlen & Hsegs).
  exists out, segs. split; [exact Hrun|]. split; [exact Hlen|]. split.
  - intros k page seg Hk Hseg.
    destruct (Hsegs k page seg Hk Hseg) as (_ & Hpre & Hfull & Happly).
    split; [exact Hpre|]. split; [apply Hfull|].
    intros Hno Hin. apply Hno, Happly, Hin.
  - intros Hall.
    destruct (redaction_loop_returns_ok pdf_path all_results name_variants
                (pages doc) 0%nat Hall s) as [out' Hrun'].
    assert (extend s out (concat segs)
            = extend s out'
                (concat_mapi (page_redaction_calls all_results name_variants) 0
                   (pages doc))) as Heq by congruence.
    by apply extend_inj in Heq as [_ ->].
Qed.

(** ** The calls of a whole run *)

Lemma find_text_on_page_quiet page_num page text :
  quiet not_analyze (find_text_on_page page_num page text).
Proof.
  unfold find_text_on_page. apply quiet_bind.
  - apply total_quiet, total_log. exact I.
  - intros _. apply quiet_lift.
Qed.

Lemma redact_rects_quiet page_num page rects :
  quiet not_analyze (redact_rects page_num page rects).
Proof.
  unfold redact_rects. apply quiet_for_. intros rect. unfold add_redact_annot.
  destruct (add_redact_annot_error page (enlarge rect)).
  - apply quiet_raise.
  - apply total_quiet, total_log. exact I.
Qed.

Lemma redact_page_total pdf_path all_results name_variants page_num page u :
  total not_analyze (redact_page pdf_path all_results name_variants page_num page u).
Proof.
  unfold redact_page. apply total_try_except; [|intros e; apply total_print].
  apply quiet_bind; [|intros _; apply quiet_bind].
  - apply quiet_for_. intros [[p r] t].
    destruct (p =? page_num)%nat; [|apply total_quiet, total_ret].
    apply quiet_bind; [apply find_text_on_page_quiet|intros; apply redact_rects_quiet].
  - apply quiet_for_. intros variant.
    apply quiet_bind; [apply find_text_on_page_quiet|intros; apply redact_rects_quiet].
  - intros _. unfold apply_redactions. destruct (apply_redactions_error page).
    + apply quiet_raise.
    + apply total_quiet, total_log. exact I.
Qed.

(** The redaction pass never raises and leaves the files as they are,
    whatever the page calls do. *)
Lemma redaction_pass_total pdf_path all_results name_variants doc :
  total not_analyze (redaction_pass pdf_path all_results name_variants doc).
Proof.
  unfold redaction_pass. apply total_for_each. intros i page u.
  apply redact_page_total.
Qed.

Lemma document_save_outcome env pdf_document output_path s :
  (exists data, fitz_tobytes env pdf_document (calls s) = inr data
                /\ writable env output_path = true)
  \/ (exists e, run (document_save env pdf_document output_path) s = (inl e, s)).
Proof.
  unfold run, document_save.
  destruct (fitz_tobytes env pdf_document (calls s)) as [e|data]; [right; eauto|].
  destruct (writable env output_path); [left|right]; eauto.
Qed.

Lemma shutil_copy2_outcome env src dst s :
  (exists data, files s !! src = Some data /\ src <> dst /\ writable env dst = true)
  \/ (exists e, forall s1, files s1 = files s ->
                  run (shutil_copy2 env src dst) s1 = (inl e, s1)).
Proof.
  unfold run, shutil_copy2.
  destruct (files s !! src) as [data|] eqn:Hf.
  - destruct (String.eqb src dst) eqn:Heq.
    + right. eexists. intros s1 Hs1. by rewrite Hs1, Hf.
    + destruct (writable env dst) eqn:Hw.
      * left. exists data. apply String.eqb_neq in Heq. done.
      * right. eexists. intros s1 Hs1. by rewrite Hs1, Hf.
  - right. eexists. intros s1 Hs1. by rewrite Hs1, Hf.
Qed.

Lemma save_or_copy_outcome env pdf_path output_path pdf_document s :
  save_outcome env pdf_path output_path pdf_document s
    (run (save_or_copy env pdf_path output_path pdf_document) s).
Proof.
  destruct (document_save_outcome env pdf_document output_path s)
    as [(data & Hb & Hw)|(e & Hsave)].
  - replace (run (save_or_copy env pdf_path output_path pdf_document) s)
      with (inr (B:=unit) (A:=exn) tt,
            mkState (<[output_path := data]> (files s)) (stdout s)
              (calls s ++ [EvSave output_path; EvClose])).
    + by apply saved.
    + unfold save_or_copy, document_save, document_close. py_unfold.
      rewrite Hb, Hw. cbn. by rewrite <- app_assoc.
  - destruct (shutil_copy2_outcome env pdf_path output_path s)
      as [(data & Hf & Hne & Hw)|(e' & Hcopy)].
    + replace (run (save_or_copy env pdf_path output_path pdf_document) s)
        with (inr (B:=unit) (A:=exn) tt,
              mkState (<[output_path := data]> (files s))
                (stdout s ++ ["Error saving PDF " +:+ output_path +:+ ": " +:+ exn_msg e;
                              "Copied original file to " +:+ output_path
                              +:+ " due to saving error"])
                (calls s ++ [EvCopy2 pdf_path output_path; EvClose])).
      * by apply (copied _ _ _ _ _ e data).
      * unfold save_or_copy, document_close. py_unfold.
        unfold run in Hsave. rewrite Hsave. unfold shutil_copy2. cbn.
        rewrite Hf, Hw. apply String.eqb_neq in Hne. rewrite Hne. cbn.
        by rewrite <- !app_assoc.
    + replace (run (save_or_copy env pdf_path output_path pdf_document) s)
        with (inl (B:=unit) e',
              mkState (files s)
                (stdout s ++ ["Error saving PDF " +:+ output_path +:+ ": " +:+ exn_msg e])
                (calls s ++ [EvClose])).
      * by apply (copy_failed _ _ _ _ _ e e').
      * unfold save_or_copy, document_close. py_unfold.
        unfold run in Hsave, Hcopy. rewrite Hsave. cbn.
        rewrite Hcopy by reflexivity. reflexivity.
Qed.

(** ** [redact_pdf] as a whole *)

Lemma fitz_open_state env pdf_path s :
  exists r, run (fitz_open env pdf_path) s = (r, s).
Proof. unfold run, fitz_open. destruct (files s !! pdf_path); eauto. Qed.

(** The outer handler: what [redact_pdf] does with the outcome of its body. *)
Lemma redact_pdf_run env pdf_path output_path analyzer ignore_terms s :
  run (redact_pdf env pdf_path output_path analyzer ignore_terms) s
  = match run (redact_pdf_body env pdf_path output_path analyzer ignore_terms) s with
    | (inl e, s') =>
        (inl NameError_traceback,
         mkState (files s')
           (stdout s' ++ ["Unexpected error processing " +:+ pdf_path +:+ ": "
                          +:+ exn_msg e])
           (calls s'))
    | (inr a, s') => (inr a, s')
    end.
Proof.
  unfold redact_pdf. rewrite run_try_except.
  destruct (run (redact_pdf_body env pdf_path output_path analyzer ignore_terms) s)
    as [[e|a] s']; reflexivity.
Qed.

(** The body when the document does not open. *)
Lemma redact_pdf_body_not_opened env pdf_path output_path analyzer ignore_terms s e :
  run (fitz_open env pdf_path) s = (inl e, s) ->
  run (redact_pdf_body env pdf_path output_path analyzer ignore_terms) s
  = run (print ("Error opening PDF " +:+ pdf_path +:+ ": " +:+ exn_msg e);;
         shutil_copy2 env pdf_path output_path;;
         print ("Copied original file to " +:+ output_path +:+ " due to opening error");;
         mret tt) s.
Proof.
  intros Hopen. unfold redact_pdf_body. rewrite run_bind.
  unfold attempt at 1. unfold run at 1. unfold run in Hopen. by rewrite Hopen.
Qed.


(** The body when the document does not open: the copy is made, or the
    exception of the copy leaves the body. *)
Lemma not_opened_outcome env pdf_path output_path analyzer ignore_terms s e :
  run (fitz_open env pdf_path) s = (inl e, s) ->
  (exists data,
     files s !! pdf_path = Some data /\ pdf_path <> output_path
     /\ writable env output_path = true
     /\ run (redact_pdf_body env pdf_path output_path analyzer ignore_terms) s
        = (inr tt,
           mkState (<[output_path := data]> (files s))
             (stdout s ++ ["Error opening PDF " +:+ pdf_path +:+ ": " +:+ exn_msg e;
                           "Copied original file to " +:+ output_path
                           +:+ " due to opening error"])
             (calls s ++ [EvCopy2 pdf_path output_path])))
  \/ (exists e',
        (forall s1, files s1 = files s ->
                    run (shutil_copy2 env pdf_path output_path) s1 = (inl e', s1))
        /\ run (redact_pdf_body env pdf_path output_path analyzer ignore_terms) s
           = (inl e',
              mkState (files s)
                (stdout s ++ ["Error opening PDF " +:+ pdf_path +:+ ": " +:+ exn_msg e])
                (calls s))).
Proof.
  intros Hopen. rewrite (redact_pdf_body_not_opened _ _ _ _ _ _ e Hopen).
  destruct (shutil_copy2_outcome env pdf_path output_path s)
    as [(data & Hf & Hne & Hw)|(e' & Hcopy)].
  - left. exists data. repeat (split; [done|]).
    py_unfold. unfold shutil_copy2. cbn.
    apply String.eqb_neq in Hne. rewrite Hf, Hne, Hw. cbn.
    by rewrite <- app_assoc.
  - right. exists e'. split; [done|]. py_unfold.
    unfold run in Hcopy. rewrite Hcopy by reflexivity. reflexivity.
Qed.




(** ** Failures of opening and of saving *)

Lemma redact_pages_total env pdf_path analyzer T doc s :
  exists out evs, run (redact_pages env pdf_path analyzer T doc) s = (inr tt, extend s out evs).
Proof.
  unfold redact_pages.
  destruct (first_pass_returns pdf_path analyzer T doc s) as [out1 H1].
  rewrite run_bind, H1.
  match goal with |- context [second_pass env pdf_path ?fp doc] =>
    destruct (second_pass_membership env pdf_path fp doc
                (extend s out1 (concat_mapi analyze_calls 0 (pages doc))))
      as (name_variants & out2 & H2 & _)
  end.
  rewrite run_bind, H2.
  match goal with |- context [redaction_pass pdf_path ?ar name_variants doc] =>
    destruct (redaction_pass_total pdf_path ar name_variants doc
                (extend (extend s out1 (concat_mapi analyze_calls 0 (pages doc))) out2 []))
      as ([] & out3 & evs3 & H3 & _)
  end.
  rewrite H3, !extend_extend. eauto.
Qed.

(** The body of [redact_pdf] on a document that opens: the three loops
    with the effective ignore set, then the saving. *)
Lemma redact_pdf_body_pages env pdf_path output_path analyzer ignore_terms s doc :
  run (fitz_open env pdf_path) s = (inr doc, s) ->
  run (redact_pdf_body env pdf_path output_path analyzer ignore_terms) s
  = run (redact_pages env pdf_path analyzer (effective_ignore_terms ignore_terms) doc;;
         save_or_copy env pdf_path output_path doc) s.
Proof.
  intros Hopen. unfold redact_pdf_body, redact_pages. rewrite run_bind.
  unfold attempt at 1. unfold run at 1. unfold run in Hopen. rewrite Hopen.
  rewrite !run_bind.
  destruct (run (first_pass pdf_path analyzer (effective_ignore_terms ignore_terms) doc) s)
    as [[e|[all_results found_persons]] s1]; [done|].
  rewrite !run_bind.
  destruct (run (second_pass env pdf_path found_persons doc) s1) as [[e|name_variants] s2];
    done.
Qed.

(** C6, as amended: when opening the input raises, or when saving the
    redacted document raises, and the copy of the input to the output path
    succeeds (the input file exists, the two paths differ and the output
    path can be written), [redact_pdf] returns normally and the output
    path holds the bytes of the input, the other files being as before. *)
Theorem C6_copy_on_failure (env : Env) (pdf_path output_path : string)
    (analyzer : Analyzer) (ignore_terms : option (gset string)) (s : state)
    (data : string) :
  files s !! pdf_path = Some data ->
  pdf_path <> output_path ->
  writable env output_path = true ->
  (exists e, run (fitz_open env pdf_path) s = (inl e, s))
  \/ (exists doc s3 e s4,
        run (fitz_open env pdf_path) s = (inr doc, s)
        /\ run (redact_pages env pdf_path analyzer
                  (effective_ignore_terms ignore_terms) doc) s = (inr tt, s3)
        /\ run (document_save env doc output_path) s3 = (inl e, s4)) ->
  exists s',
    run (redact_pdf env pdf_path output_path analyzer ignore_terms) s = (inr tt, s')
    /\ files s' = <[output_path := data]> (files s).
Proof.
  intros Hfile Hne Hw Hfail. rewrite redact_pdf_run.
  destruct Hfail as [(e & Hopen)|(doc & s3 & e & s4 & Hopen & Hpages & Hsave)].
  - destruct (not_opened_outcome env pdf_path output_path analyzer ignore_terms s e Hopen)
      as [(data' & Hf & _ & _ & Hrun)|(e' & Hcopy & _)].
    + rewrite Hrun. eexists. split; [reflexivity|]. cbn. congruence.
    + exfalso. specialize (Hcopy s eq_refl). unfold run, shutil_copy2 in Hcopy.
      apply String.eqb_neq in Hne. rewrite Hfile, Hne, Hw in Hcopy. discriminate.
  - rewrite (redact_pdf_body_pages _ _ _ _ _ _ doc Hopen), run_bind, Hpages.
    destruct (redact_pages_total env pdf_path analyzer
                (effective_ignore_terms ignore_terms) doc s) as (out & evs & Hs3).
    rewrite Hpages in Hs3. injection Hs3 as ->.
    destruct (save_or_copy_outcome env pdf_path output_path doc (extend s out evs))
      as [data' Hb Hw'|e0 data' Hsave' Hf _ _|e0 e' _ Hcopy].
    + exfalso. unfold run, document_save in Hsave. rewrite Hb, Hw' in Hsave. discriminate.
    + eexists. split; [reflexivity|]. cbn in *. congruence.
    + exfalso. specialize (Hcopy (extend s out evs) eq_refl).
      unfold run, shutil_copy2 in Hcopy. cbn [files extend] in Hcopy.
      apply String.eqb_neq in Hne. rewrite Hfile, Hne, Hw in Hcopy. discriminate.
Qed.

(** C10: an exception that leaves the body of [redact_pdf] reaches the
    outer handler, which prints its first line and then, [traceback] not
    being imported, raises [NameError]: [redact_pdf] itself raises. *)
Theorem C10_handler_raises_NameError (env : Env) (pdf_path output_path : string)
    (analyzer : Analyzer) (ignore_terms : option (gset string)) (s s1 : state)
    (e : exn) :
  run (redact_pdf_body env pdf_path output_path analyzer ignore_terms) s = (inl e, s1) ->
  run (redact_pdf env pdf_path output_path analyzer ignore_terms) s
  = (inl (Exn "NameError" "name 'traceback' is not defined"),
     mkState (files s1)
       (stdout s1 ++ ["Unexpected error processing " +:+ pdf_path +:+ ": " +:+ exn_msg e])
       (calls s1)).
Proof. intros Hbody. by rewrite redact_pdf_run, Hbody. Qed.

(** ** The ignore set of a run and the command line *)

Lemma elem_of_effective_ignore_terms (ignore_terms : option (gset string)) (x : string) :
  x ∈ effective_ignore_terms ignore_terms <->
  (exists term, term ∈ default (∅ : gset string) ignore_terms /\ x = lower term)
  \/ x ∈ DEFAULT_IGNORE_TERMS.
Proof.
  unfold effective_ignore_terms. rewrite elem_of_union, elem_of_map.
  destruct ignore_terms as [T|].
  - change (default (∅ : gset string) (Some T)) with T.
    split; (intros [(t & H1 & H2)|H]; [left; exists t; done|by right]).
  - change (default (∅ : gset string) None) with (∅ : gset string).
    split; (intros [(t & H1 & H2)|H]; [left; exists t; done|by right]).
Qed.

(** C7: the ignore set of a run of [redact_pdf] is the union of the
    caller's terms in lower case and [DEFAULT_IGNORE_TERMS]: that is the
    set the three loops of the body run with; and [main] does the same
    whatever the value of [disable_default_ignores], so the default list
    is always applied. *)
Theorem C7_default_ignores_always_applied :
  (forall (ignore_terms : option (gset string)) (x : string),
     x ∈ effective_ignore_terms ignore_terms <->
     (exists term, term ∈ default (∅ : gset string) ignore_terms /\ x = lower term)
     \/ x ∈ DEFAULT_IGNORE_TERMS)
  /\ (forall (env : Env) (pdf_path output_path : string) (analyzer : Analyzer)
        (ignore_terms : option (gset string)) (doc : Document) (s : state),
      run (fitz_open env pdf_path) s = (inr doc, s) ->
      run (redact_pdf_body env pdf_path output_path analyzer ignore_terms) s
      = run (redact_pages env pdf_path analyzer
               (set_map lower (default (∅ : gset string) ignore_terms)
                ∪ DEFAULT_IGNORE_TERMS) doc;;
             save_or_copy env pdf_path output_path doc) s)
  /\ (forall (env : Env) (args : Namespace) (analyzer : Analyzer) (flag : bool)
        (s : state),
      run (main env (mkNamespace (input args) (output args) (batch args) (ignore args)
                       flag) analyzer) s
      = run (main env args analyzer) s).
Proof.
  split; [exact elem_of_effective_ignore_terms|]. split.
  - intros env pdf_path output_path analyzer ignore_terms doc s Hopen.
    rewrite (redact_pdf_body_pages _ _ _ _ _ _ doc Hopen).
    by destruct ignore_terms.
  - intros env [i o b ig fl] analyzer flag s. reflexivity.
Qed.

(** ** Batch processing *)

Lemma process_entry_eq env input_dir output_dir analyzer ignore_terms i filename count :
  process_entry env input_dir output_dir analyzer ignore_terms i filename count
  = if endswith ".pdf" (lower filename)
    then redact_pdf env (OsPath.join input_dir filename)
           (OsPath.join output_dir (str_of_nat (S count) +:+ ".pdf"))
           analyzer ignore_terms;;
         mret (S count)
    else mret (S count).
Proof. unfold process_entry. cbv zeta. by rewrite Nat.add_1_r. Qed.

Lemma process_entries_run env input_dir output_dir analyzer ignore_terms
    (filenames : list string) (i0 count : nat) (s : state) :
  run (for_each (process_entry env input_dir output_dir analyzer ignore_terms)
         i0 filenames count;; mret tt) s
  = run (for_
           (map (fun '(count, filename) =>
                   (OsPath.join input_dir filename,
                    OsPath.join output_dir (str_of_nat count +:+ ".pdf")))
              (List.filter (fun '(count, filename) => endswith ".pdf" (lower filename))
                 (combine (seq (S count) (length filenames)) filenames)))
           (fun '(input_path, output_path) =>
              redact_pdf env input_path output_path analyzer ignore_terms)) s.
Proof.
  revert i0 count s. induction filenames as [|filename rest IH]; intros i0 count s.
  - reflexivity.
  - cbn [for_each length seq combine List.filter].
    rewrite process_entry_eq.
    destruct (endswith ".pdf" (lower filename)); cbn [map for_].
    + rewrite !run_bind.
      destruct (run (redact_pdf env (OsPath.join input_dir filename)
                       (OsPath.join output_dir (str_of_nat (S count) +:+ ".pdf"))
                       analyzer ignore_terms) s) as [[e|[]] s1]; [done|].
      exact (IH (S i0) (S count) s1).
    + exact (IH (S i0) (S count) s).
Qed.

(** C8: [process_directory] first makes the output directory with
    [exist_ok], then lists the input directory and calls [redact_pdf], in
    the order of the listing, for exactly the entries whose name ends in
    [".pdf"] whatever the case, each with output
    [<counter>.pdf], the counter counting every entry from 1; a listing
    with an entry that is not a PDF gives output names with a gap. *)
Theorem C8_process_directory :
  (forall (env : Env) (input_dir output_dir : string) (analyzer : Analyzer)
     (ignore_terms : option (gset string)) (s : state),
     run (process_directory env input_dir output_dir analyzer ignore_terms) s
     = run (os_makedirs env output_dir;;
            filenames ← listdir env input_dir;
            for_ (pdf_jobs input_dir output_dir filenames)
              (fun '(input_path, output_path) =>
                 redact_pdf env input_path output_path analyzer ignore_terms)) s)
  /\ (forall (env : Env) (output_dir : string) (s : state),
        os_makedirs_error env output_dir = None ->
        run (os_makedirs env output_dir) s
        = (inr tt, mkState (files s) (stdout s) (calls s ++ [EvMakedirs output_dir true])))
  /\ pdf_jobs "in" "out" ["a.pdf"; "notes.txt"; "b.PDF"]
     = [("in/a.pdf", "out/1.pdf"); ("in/b.PDF", "out/3.pdf")].
Proof.
  split; [|split].
  - intros env input_dir output_dir analyzer ignore_terms s.
    unfold process_directory. rewrite !run_bind.
    destruct (run (os_makedirs env output_dir) s) as [[e|[]] s1]; [done|].
    rewrite !run_bind.
    destruct (run (listdir env input_dir) s1) as [[e|filenames] s2]; [done|].
    apply (process_entries_run env input_dir output_dir analyzer ignore_terms
             filenames 0 0 s2).
  - intros env output_dir s Hok. unfold os_makedirs. by rewrite Hok.
  - reflexivity.
Qed.

(** ** [extract.py] *)



(** ** The examples *)

Lemma strict_page_calls_ok all_results name_variants page_num text :
  (forall n, n ∈ needles_on_page all_results name_variants page_num ->
             strip n <> EmptyString) ->
  page_calls_ok all_results name_variants page_num (ToyBroken.strict_page text).
Proof.
  intros Hne. split; [|reflexivity]. intros n Hn. unfold needle_calls_ok.
  cbn [search_for ToyBroken.strict_page].
  destruct (String.eqb_spec (strip n) EmptyString) as [Heq|_]; [by apply Hne in Heq|].
  eexists. split; [reflexivity|]. intros rect _. reflexivity.
Qed.

(** C1, counterexample: on the example, the URL result on "flask.io" of
    page 0 and the PERSON result on "Jon Go smithson" of page 1 are both
    ignored by [should_ignore]; yet the run searches for "flask.io" on
    page 0, because a PERSON result has the same text, and for
    "Jon Go smithson" on page 1, because it is a name variant, and adds a
    redaction annotation on what each search finds. *)
Lemma C1_counterexample_ignored_yet_redacted :
  let T := effective_ignore_terms None in
  let url := mkResult "URL" 19 27 in
  let person := mkResult "PERSON" 8 23 in
  let s' := (run (redact_pdf Toy.env "cv.pdf" "out.pdf" Toy.analyzer None) Toy.s0).2 in
  (exists results, Toy.analyzer Toy.cv_page0 entities_to_detect "en" = inr results
                   /\ url ∈ results)
  /\ slice Toy.cv_page0 (start url) (end_ url) = "flask.io"
  /\ should_ignore "flask.io" T (Some (entity_type url)) = true
  /\ (exists results, Toy.analyzer Toy.cv_page1 entities_to_detect "en" = inr results
                      /\ person ∈ results)
  /\ slice Toy.cv_page1 (start person) (end_ person) = "Jon Go smithson"
  /\ should_ignore "Jon Go smithson" T (Some (entity_type person)) = true
  /\ EvSearchFor 0 "flask.io" ∈ calls s'
  /\ EvAddRedactAnnot 0 (mkRect 70 98 82 114) (0, 0, 0)%Z ∈ calls s'
  /\ EvSearchFor 1 "Jon Go smithson" ∈ calls s'
  /\ EvAddRedactAnnot 1 (mkRect 70 98 89 114) (0, 0, 0)%Z ∈ calls s'.
Proof.
  cbv zeta. split; [|split; [|split; [|split; [|split; [|split]]]]].
  - eexists. split; [reflexivity|]. repeat constructor.
  - reflexivity.
  - vm_compute. reflexivity.
  - eexists. split; [reflexivity|]. repeat constructor.
  - reflexivity.
  - vm_compute. reflexivity.
  - assert (calls (run (redact_pdf Toy.env "cv.pdf" "out.pdf" Toy.analyzer None) Toy.s0).2
            = [EvAnalyze Toy.cv_page0 entities_to_detect "en";
               EvAnalyze Toy.cv_page1 entities_to_detect "en";
               EvSearchFor 0 "Jon Gosmithson";
               EvAddRedactAnnot 0 (mkRect 70 98 88 114) (0, 0, 0)%Z;
               EvSearchFor 0 "flask.io";
               EvAddRedactAnnot 0 (mkRect 70 98 82 114) (0, 0, 0)%Z;
               EvSearchFor 0 "Jon Gosmithson see";
               EvAddRedactAnnot 0 (mkRect 70 98 92 114) (0, 0, 0)%Z;
               EvSearchFor 0 "Jon Go smithson"; EvApplyRedactions 0;
               EvSearchFor 1 "Jon Gosmithson see"; EvSearchFor 1 "Jon Go smithson";
               EvAddRedactAnnot 1 (mkRect 70 98 89 114) (0, 0, 0)%Z;
               EvApplyRedactions 1; EvSave "out.pdf"; EvClose]) as ->
      by (vm_compute; reflexivity).
    repeat split; repeat constructor.
Qed.

(** C6, counterexample: opening a missing input raises, and so does the
    copy; saving to a path that cannot be written raises, and so does the
    copy. In both runs [redact_pdf] does not return but raises
    [NameError], and there is no file at the output path. *)
Lemma C6_counterexample_copy_fails :
  let r1 := run (redact_pdf Toy.env "missing.pdf" "out.pdf" Toy.analyzer None) Toy.s0 in
  let r2 := run (redact_pdf Toy.env "old.pdf" "/ro/out.pdf" Toy.analyzer None) Toy.s0 in
  (exists e, run (fitz_open Toy.env "missing.pdf") Toy.s0 = (inl e, Toy.s0))
  /\ r1.1 = inl (Exn "NameError" "name 'traceback' is not defined")
  /\ files r1.2 !! "out.pdf" = None
  /\ (exists s3 e,
        run (fitz_open Toy.env "old.pdf") Toy.s0 = (inr Toy.damaged, Toy.s0)
        /\ run (redact_pages Toy.env "old.pdf" Toy.analyzer (effective_ignore_terms None)
                  Toy.damaged) Toy.s0 = (inr tt, s3)
        /\ run (document_save Toy.env Toy.damaged "/ro/out.pdf") s3 = (inl e, s3))
  /\ r2.1 = inl (Exn "NameError" "name 'traceback' is not defined")
  /\ files r2.2 !! "/ro/out.pdf" = None.
Proof.
  cbv zeta. split; [|split; [|split; [|split; [|split]]]].
  - eexists. vm_compute. reflexivity.
  - vm_compute. reflexivity.
  - vm_compute. reflexivity.
  - eexists _, _. split; [vm_compute; reflexivity|]. split; vm_compute; reflexivity.
  - vm_compute. reflexivity.
  - vm_compute. reflexivity.
Qed.


(** C2 on the example: "Jon Go smithson", three words of page 1, is a
    name variant of the collected person "Jon Gosmithson" (ratio 28/29). *)
Lemma C2_witness :
  exists all_results found_persons s1 name_variants s2,
    run (first_pass "cv.pdf" Toy.analyzer (effective_ignore_terms None) Toy.cv) Toy.s0
    = (inr (all_results, found_persons), s1)
    /\ run (second_pass Toy.env "cv.pdf" found_persons Toy.cv) s1
       = (inr name_variants, s2)
    /\ "Jon Go smithson" ∈ name_variants.
Proof.
  destruct (C2_name_variants Toy.env "cv.pdf" Toy.analyzer (effective_ignore_terms None)
              Toy.cv Toy.s0)
    as (all_results & found_persons & s1 & name_variants & s2 & H1 & H2 & H).
  exists all_results, found_persons, s1, name_variants, s2.
  split; [exact H1|]. split; [exact H2|].
  apply (H 1%nat (Toy.text_page Toy.cv_page1) Toy.cv_page1 1%nat 3%nat);
    [reflexivity | reflexivity | lia | vm_compute; lia |].
  split; [vm_compute; lia|].
  exists 0%nat, (mkResult "PERSON" 0 14), "Jon Gosmithson".
  assert (all_results
          = [(0%nat, mkResult "PERSON" 0 14, "Jon Gosmithson");
             (0%nat, mkResult "PERSON" 19 27, "flask.io")]) as ->.
  { assert (run (first_pass "cv.pdf" Toy.analyzer (effective_ignore_terms None) Toy.cv)
              Toy.s0
            = (inr ([(0%nat, mkResult "PERSON" 0 14, "Jon Gosmithson");
                     (0%nat, mkResult "PERSON" 19 27, "flask.io")],
                    ["Jon Gosmithson"; "flask.io"]),
               mkState (files Toy.s0) []
                 [EvAnalyze Toy.cv_page0 entities_to_detect "en";
                  EvAnalyze Toy.cv_page1 entities_to_detect "en"])) as Hrun
      by (vm_compute; reflexivity).
    rewrite Hrun in H1. by injection H1 as <- _ _. }
  split; [repeat constructor|]. split; [reflexivity|]. split; [vm_compute; lia|].
  split; [reflexivity|]. split; [reflexivity|]. discriminate.
Defined.

(** C3, counterexample: on a document whose first page raises at every
    search, the name variant is not searched for on the first page and
    there is no [apply_redactions] for the first page; the second page is
    treated in full. *)
Lemma C3_counterexample_page_call_raises :
  let all_results := [(0%nat, mkResult "PERSON" 0 14, "Jon Gosmithson")] in
  let name_variants := ["Jon Go smithson"] in
  exists out evs,
    run (redaction_pass "cv.pdf" all_results name_variants ToyBroken.doc) Toy.s0
    = (inr tt, extend Toy.s0 out evs)
    /\ length (pages ToyBroken.doc) = 2%nat
    /\ (EvSearchFor 0 "Jon Go smithson" ∉ evs)
    /\ (EvApplyRedactions 0 ∉ evs)
    /\ EvSearchFor 1 "Jon Go smithson" ∈ evs
    /\ EvApplyRedactions 1 ∈ evs.
Proof.
  cbv zeta.
  exists ["Error applying redactions on page 0 of cv.pdf: page is damaged"],
    [EvSearchFor 0 "Jon Gosmithson";
     EvSearchFor 1 "Jon Go smithson";
     EvAddRedactAnnot 1 (mkRect 70 98 89 114) (0, 0, 0)%Z;
     EvApplyRedactions 1].
  split; [vm_compute; reflexivity|]. split; [reflexivity|].
  split; [|split; [|split]].
  - intros Hin. repeat (apply elem_of_cons in Hin as [Hin|Hin]; [discriminate Hin|]).
    by apply elem_of_nil in Hin.
  - intros Hin. repeat (apply elem_of_cons in Hin as [Hin|Hin]; [discriminate Hin|]).
    by apply elem_of_nil in Hin.
  - right. left.
  - do 3 right. left.
Qed.

(** C3 on the example: the two pages of the CV, on which only the search
    for the empty text would raise. *)
Lemma C3_witness :
  search_for (ToyBroken.strict_page Toy.cv_page0) EmptyString
  = inl (Exn "ValueError" "empty search text")
  /\ exists out,
       run (redaction_pass "cv.pdf"
              [(0%nat, mkResult "PERSON" 0 14, "Jon Gosmithson")]
              ["Jon Go smithson"] ToyBroken.strict_cv) Toy.s0
       = (inr tt,
          extend Toy.s0 out
            (concat_mapi
               (page_redaction_calls
                  [(0%nat, mkResult "PERSON" 0 14, "Jon Gosmithson")]
                  ["Jon Go smithson"]) 0 (pages ToyBroken.strict_cv))).
Proof.
  split; [reflexivity|].
  destruct (C3_redaction_pass "cv.pdf"
              [(0%nat, mkResult "PERSON" 0 14, "Jon Gosmithson")]
              ["Jon Go smithson"] ToyBroken.strict_cv Toy.s0)
    as (out & segs & Hrun & _ & _ & Hall).
  exists out. rewrite <- Hall; [exact Hrun|].
  intros k page Hk.
  destruct k as [|[|k]]; [injection Hk as <-..|discriminate Hk];
    apply strict_page_calls_ok; intros n Hn;
    repeat (apply elem_of_cons in Hn as [->|Hn]; [discriminate|]);
    by apply elem_of_nil in Hn.
Defined.


(** C5 on the example: "Asp-Net" has the normalized form of the term
    "ASP.NET". *)
Lemma C5_witness : should_ignore "Asp-Net" DEFAULT_IGNORE_TERMS None = true.
Proof.
  apply (proj2 (proj2 C5_normalize_text) "Asp-Net" DEFAULT_IGNORE_TERMS None "ASP.NET").
  - apply (bool_decide_unpack _). vm_compute. exact I.
  - reflexivity.
Defined.

(** C6 on the example: [old.pdf] opens but cannot be saved, and is copied. *)
Lemma C6_witness :
  exists s',
    run (redact_pdf Toy.env "old.pdf" "out.pdf" Toy.analyzer None) Toy.s0 = (inr tt, s')
    /\ files s' = <["out.pdf" := "%PDF damaged"]> (files Toy.s0).
Proof.
  apply (C6_copy_on_failure Toy.env "old.pdf" "out.pdf" Toy.analyzer None Toy.s0
           "%PDF damaged").
  - vm_compute. reflexivity.
  - discriminate.
  - reflexivity.
  - right.
    exists Toy.damaged,
      (mkState (files Toy.s0) []
         [EvAnalyze "Jon Gosmithson" entities_to_detect "en"; EvApplyRedactions 0]),
      (Exn "RuntimeError" "cannot save the document"),
      (mkState (files Toy.s0) []
         [EvAnalyze "Jon Gosmithson" entities_to_detect "en"; EvApplyRedactions 0]).
    split; [vm_compute; reflexivity|]. split; vm_compute; reflexivity.
Defined.

(** C7 on the example. *)
Lemma C7_witness :
  run (redact_pdf_body Toy.env "cv.pdf" "out.pdf" Toy.analyzer (Some {["React"]})) Toy.s0
  = run (redact_pages Toy.env "cv.pdf" Toy.analyzer
           (set_map lower (default (∅ : gset string) (Some {["React"]}))
            ∪ DEFAULT_IGNORE_TERMS) Toy.cv;;
         save_or_copy Toy.env "cv.pdf" "out.pdf" Toy.cv) Toy.s0.
Proof.
  apply (proj1 (proj2 C7_default_ignores_always_applied)).
  vm_compute. reflexivity.
Defined.

(** C8 on the example. *)
Lemma C8_witness :
  run (os_makedirs Toy.env "out") Toy.s0
  = (inr tt, mkState (files Toy.s0) (stdout Toy.s0)
               (calls Toy.s0 ++ [EvMakedirs "out" true])).
Proof.
  apply (proj1 (proj2 C8_process_directory)). reflexivity.
Defined.


(** C10 on the example: the input is missing, the copy raises, and the
    exception reaches the handler. *)
Lemma C10_witness :
  exists e s1,
    run (redact_pdf_body Toy.env "missing.pdf" "out.pdf" Toy.analyzer None) Toy.s0
    = (inl e, s1)
    /\ run (redact_pdf Toy.env "missing.pdf" "out.pdf" Toy.analyzer None) Toy.s0
       = (inl (Exn "NameError" "name 'traceback' is not defined"),
          mkState (files s1)
            (stdout s1 ++ ["Unexpected error processing " +:+ "missing.pdf" +:+ ": "
                           +:+ exn_msg e])
            (calls s1)).
Proof.
  exists (Exn "FileNotFoundError" "No such file or directory: 'missing.pdf'"),
    (mkState (files Toy.s0)
       ["Error opening PDF missing.pdf: no such file: 'missing.pdf'"] []).
  assert (run (redact_pdf_body Toy.env "missing.pdf" "out.pdf" Toy.analyzer None) Toy.s0
          = (inl (Exn "FileNotFoundError" "No such file or directory: 'missing.pdf'"),
             mkState (files Toy.s0)
               ["Error opening PDF missing.pdf: no such file: 'missing.pdf'"] []))
    as Hbody by (vm_compute; reflexivity).
  split; [exact Hbody|].
  apply (C10_handler_raises_NameError Toy.env "missing.pdf" "out.pdf" Toy.analyzer None
           Toy.s0 _ _ Hbody).
Defined.

(** * Further properties of the code *)

(** ** More on the ignore list *)

Lemma kept_by_normalize_lower_char (c : ascii) :
  kept_by_normalize (lower_char c) = kept_by_normalize c.
Proof. destruct c as [[] [] [] [] [] [] [] []]; reflexivity. Qed.

Lemma lower_filter_chars (p : ascii -> bool) (s : string) :
  (forall c, p (lower_char c) = p c) ->
  lower (filter_chars p s) = filter_chars p (lower s).
Proof.
  intros Hp. induction s as [|c s IH]; [reflexivity|]. cbn [filter_chars lower].
  rewrite Hp. destruct (p c); cbn [lower]; by rewrite IH.
Qed.

(** X1: [normalize_text] is idempotent: normalizing a normalized text
    changes nothing. *)
Theorem X1_normalize_text_idempotent (s : string) :
  normalize_text (normalize_text s) = normalize_text s.
Proof.
  rewrite !normalize_text_filter.
  rewrite (lower_filter_chars _ _ kept_by_normalize_lower_char), lower_idem.
  rewrite filter_chars_twice. apply filter_chars_ext. intros x.
  by destruct (kept_by_normalize x).
Qed.

Lemma should_ignore_lower (e : string) (T : gset string) (t : option string) :
  should_ignore (lower e) T t = should_ignore e T t.
Proof. unfold should_ignore. by rewrite lower_idem, normalize_text_lower. Qed.

(** X2: [should_ignore] looks at the entity text only through its
    lower-case form: two texts that differ in letter case only are
    ignored, or not, together. *)
Theorem X2_should_ignore_case_insensitive (e e' : string) (T : gset string)
    (t : option string) :
  lower e = lower e' -> should_ignore e T t = should_ignore e' T t.
Proof.
  intros Heq. rewrite <- (should_ignore_lower e), <- (should_ignore_lower e').
  by rewrite Heq.
Qed.

Lemma X2_witness :
  should_ignore "GitHub" DEFAULT_IGNORE_TERMS (Some "PERSON")
  = should_ignore "github" DEFAULT_IGNORE_TERMS (Some "PERSON").
Proof. apply X2_should_ignore_case_insensitive. reflexivity. Defined.

(** The tests of [should_ignore], on the normalized terms only. *)
Lemma should_ignore_normalized (e : string) (T : gset string) (t : option string) :
  should_ignore e T t = true <->
  normalize_text e ∈ normalized_terms T
  \/ (exists w, w ∈ split (lower e) /\ normalize_text w ∈ normalized_terms T)
  \/ (t = Some "URL" /\
      existsb (fun tech_term => contains tech_term (lower e)) url_tech_terms = true).
Proof.
  unfold should_ignore.
  case_bool_decide as Ha.
  { split; [|done]. intros _. left. apply elem_of_normalized_terms.
    exists (lower e). by rewrite normalize_text_lower. }
  case_bool_decide as Hb. { split; [by left|done]. }
  destruct (should_ignore_words (split (lower e)) T) eqn:Hc.
  { split; [|done]. intros _. right; left.
    apply should_ignore_words_true in Hc as (w & Hin & [Hw|Hw]); exists w; [|done].
    split; [done|]. apply elem_of_normalized_terms. eauto. }
  assert (forall w, w ∈ split (lower e) -> normalize_text w ∉ normalized_terms T) as Hc'.
  { intros w Hin Hw. assert (should_ignore_words (split (lower e)) T = true) as H;
      [|congruence]. apply should_ignore_words_true. eauto. }
  case_bool_decide as Ht; cbn [andb].
  - destruct (existsb _ url_tech_terms) eqn:Hd.
    + split; [|done]. intros _. right; right. done.
    + split; [done|]. intros [?|[(w & Hin & Hw)|[_ ?]]]; [done| |done].
      by apply Hc' in Hin.
  - split; [done|]. intros [?|[(w & Hin & Hw)|[? _]]]; [done| |done].
    by apply Hc' in Hin.
Qed.

Lemma normalized_terms_lower_union (T D : gset string) :
  normalized_terms (set_map lower T ∪ D) = normalized_terms (T ∪ D).
Proof.
  apply set_eq. intros x. rewrite !elem_of_normalized_terms. split.
  - intros (term & Hin & ->). apply elem_of_union in Hin as [Hin|Hin].
    + apply elem_of_map in Hin as (u & -> & Hu). exists u.
      rewrite normalize_text_lower. split; [|done]. apply elem_of_union. by left.
    + exists term. split; [|done]. apply elem_of_union. by right.
  - intros (term & Hin & ->). apply elem_of_union in Hin as [Hin|Hin].
    + exists (lower term). rewrite normalize_text_lower. split; [|done].
      apply elem_of_union. left. apply elem_of_map. eauto.
    + exists term. split; [|done]. apply elem_of_union. by right.
Qed.

(** X3: [should_ignore] depends on the ignore set only through the set of
    its normalized terms; in particular the lower-casing of the caller's
    terms in [redact_pdf] changes no answer of [should_ignore]. *)
Theorem X3_should_ignore_normalized_terms_only :
  (forall (e : string) (T T' : gset string) (t : option string),
     normalized_terms T = normalized_terms T' ->
     should_ignore e T t = should_ignore e T' t)
  /\ (forall (e : string) (T : gset string) (t : option string),
        should_ignore e (effective_ignore_terms (Some T)) t
        = should_ignore e (T ∪ DEFAULT_IGNORE_TERMS) t).
Proof.
  assert (forall (e : string) (T T' : gset string) (t : option string),
            normalized_terms T = normalized_terms T' ->
            should_ignore e T t = should_ignore e T' t) as Hgen.
  { intros e T T' t Heq.
    pose proof (should_ignore_normalized e T t) as H1.
    pose proof (should_ignore_normalized e T' t) as H2.
    rewrite Heq in H1.
    destruct (should_ignore e T t), (should_ignore e T' t); try done.
    - symmetry. apply H2, H1. done.
    - apply H1, H2. done. }
  split; [exact Hgen|].
  intros e T t. apply Hgen. unfold effective_ignore_terms.
  apply normalized_terms_lower_union.
Qed.

Lemma X3_witness :
  should_ignore "Asp-Net" ({["ASP.NET"]} : gset string) None
  = should_ignore "Asp-Net" ({["aspnet"]} : gset string) None.
Proof.
  apply (proj1 X3_should_ignore_normalized_terms_only).
  vm_compute. reflexivity.
Defined.

(** X4: a larger ignore set ignores at least as much. *)
Theorem X4_should_ignore_monotone (e : string) (T T' : gset string)
    (t : option string) :
  T ⊆ T' -> should_ignore e T t = true -> should_ignore e T' t = true.
Proof.
  intros Hsub H. apply should_ignore_true in H. apply should_ignore_true.
  destruct H as [H|[(term & Hin & H)|[(w & Hw & H)|H]]].
  - left. by apply Hsub.
  - right; left. exists term. split; [by apply Hsub|done].
  - right; right; left. exists w. split; [done|].
    destruct H as [H|(term & Hin & H)]; [left; by apply Hsub|right].
    exists term. split; [by apply Hsub|done].
  - by right; right; right.
Qed.

Lemma X4_witness :
  should_ignore "React Native" ({["react"; "node"]} : gset string) None = true.
Proof.
  apply (X4_should_ignore_monotone "React Native" {["react"]} {["react"; "node"]} None).
  - apply (bool_decide_unpack _). vm_compute. exact I.
  - vm_compute. reflexivity.
Defined.

(** ** The command-line list of ignore terms *)

Lemma split_char_not_nil (sep : ascii) (s : string) : split_char sep s <> [].
Proof.
  induction s as [|c s IH]; cbn; [done|].
  destruct (Ascii.eqb c sep); [done|]. by destruct (split_char sep s).
Qed.

Lemma split_char_trailing (sep : ascii) (s : string) :
  split_char sep (s +:+ String sep EmptyString) = split_char sep s ++ [EmptyString].
Proof.
  induction s as [|c s IH].
  - change (split_char sep (String sep EmptyString) = [EmptyString; EmptyString]).
    cbn [split_char]. by rewrite Ascii.eqb_refl.
  - change (String c s +:+ String sep EmptyString)
      with (String c (s +:+ String sep EmptyString)).
    cbn [split_char]. rewrite IH.
    destruct (Ascii.eqb c sep); [reflexivity|].
    pose proof (split_char_not_nil sep s). by destruct (split_char sep s).
Qed.

Lemma elem_of_parse_ignore_terms (l x : string) :
  l <> EmptyString ->
  x ∈ parse_ignore_terms (Some l) <->
  exists piece, piece ∈ split_char "," l /\ x = strip piece.
Proof.
  intros Hl. destruct l as [|c l]; [done|]. unfold parse_ignore_terms.
  rewrite elem_of_list_to_set, list_elem_of_fmap.
  split; intros (piece & H1 & H2); exists piece; done.
Qed.

(** X5: a term given in the comma-separated [--ignore] list is ignored
    in any letter case, spaces around it in the list being dropped: an
    entity whose lower-case form is that of the stripped item is ignored
    by [should_ignore] with the ignore set of the run. *)
Theorem X5_listed_term_is_ignored (l piece e : string) (t : option string) :
  l <> EmptyString ->
  piece ∈ split_char "," l ->
  lower e = lower (strip piece) ->
  should_ignore e (effective_ignore_terms (Some (parse_ignore_terms (Some l)))) t = true.
Proof.
  intros Hl Hin Heq. apply should_ignore_true. left. rewrite Heq.
  unfold effective_ignore_terms. apply elem_of_union. left.
  apply elem_of_map. exists (strip piece). split; [done|].
  apply elem_of_parse_ignore_terms; eauto.
Qed.

Lemma X5_witness :
  should_ignore "NODE"
    (effective_ignore_terms (Some (parse_ignore_terms (Some "MyCorp, Node")))) None
  = true.
Proof.
  apply (X5_listed_term_is_ignored "MyCorp, Node" " Node" "NODE" None).
  - discriminate.
  - cbn. repeat constructor.
  - reflexivity.
Defined.

(** X6: an empty item in the [--ignore] list, as a trailing comma gives,
    puts the empty string in the ignore set; then every entity with a
    word made of periods and hyphens only, such as a lone hyphen, is
    ignored as a whole. *)
Theorem X6_trailing_comma_ignores_punctuation (l e w : string) (t : option string) :
  w ∈ split e ->
  normalize_text w = EmptyString ->
  should_ignore e
    (effective_ignore_terms (Some (parse_ignore_terms (Some (l +:+ ","))))) t
  = true.
Proof.
  intros Hw Hn. apply should_ignore_true. right; right; left.
  exists w. split; [done|]. right. exists EmptyString.
  split; [|by rewrite normalize_text_lower].
  unfold effective_ignore_terms. apply elem_of_union. left.
  apply elem_of_map. exists EmptyString. split; [done|].
  apply elem_of_parse_ignore_terms.
  - by destruct l.
  - exists EmptyString. split; [|done]. rewrite split_char_trailing.
    apply elem_of_app. right. constructor.
Qed.

Lemma X6_witness :
  should_ignore "John - Smith"
    (effective_ignore_terms (Some (parse_ignore_terms (Some ("React" +:+ ","))))) None
  = true.
Proof.
  apply (X6_trailing_comma_ignores_punctuation "React" "John - Smith" "-" None).
  - cbn. repeat constructor.
  - reflexivity.
Defined.

(** ** Words and name variants *)

Lemma is_word_cons (c : ascii) (w : string) :
  isspace c = false -> all_chars (fun c => negb (isspace c)) w = true ->
  is_word (String c w).
Proof. intros Hc Hw. split; [done|]. cbn [all_chars]. by rewrite Hc, Hw. Qed.

Lemma split_words (s w : string) : w ∈ split s -> is_word w.
Proof.
  revert w. induction s as [|c s IH]; intros w Hin; cbn [split] in Hin.
  { by apply elem_of_nil in Hin. }
  destruct (isspace c) eqn:Hc; [by apply IH|].
  destruct s as [|d s'].
  { apply list_elem_of_singleton in Hin as ->. by apply is_word_cons. }
  destruct (isspace d) eqn:Hd.
  { apply elem_of_cons in Hin as [->|Hin]; [by apply is_word_cons|by apply IH]. }
  destruct (split (String d s')) as [|w0 ws] eqn:Hs.
  { apply list_elem_of_singleton in Hin as ->. by apply is_word_cons. }
  apply elem_of_cons in Hin as [->|Hin].
  - apply is_word_cons; [done|]. apply (IH w0). left.
  - apply IH. by right.
Qed.

Lemma all_chars_cons (p : ascii -> bool) (c : ascii) (s : string) :
  all_chars p (String c s) = true <-> p c = true /\ all_chars p s = true.
Proof. cbn [all_chars]. apply andb_true_iff. Qed.

Lemma split_word (w : string) : is_word w -> split w = [w].
Proof.
  intros [Hne Hall]. induction w as [|c w IH]; [done|].
  apply all_chars_cons in Hall as [Hc Hall]. apply negb_true_iff in Hc.
  cbn [split]. rewrite Hc. destruct w as [|d w']; [done|].
  pose proof Hall as Hall'. apply all_chars_cons in Hall' as [Hd _].
  apply negb_true_iff in Hd. rewrite Hd. by rewrite IH.
Qed.

Lemma split_word_sep (w : string) (c : ascii) (s : string) :
  is_word w -> isspace c = true ->
  split (w +:+ String c s) = w :: split s.
Proof.
  intros [Hne Hall] Hc. induction w as [|a w IH]; [done|].
  apply all_chars_cons in Hall as [Ha Hall]. apply negb_true_iff in Ha.
  change (String a w +:+ String c s) with (String a (w +:+ String c s)).
  cbn [split]. rewrite Ha. destruct w as [|d w'].
  - change (EmptyString +:+ String c s) with (String c s).
    cbn [split]. by rewrite !Hc.
  - change (String d w' +:+ String c s) with (String d (w' +:+ String c s)) in *.
    pose proof Hall as Hall'. apply all_chars_cons in Hall' as [Hd _].
    apply negb_true_iff in Hd. rewrite Hd. by rewrite IH.
Qed.

Lemma join_cons2 (sep w w2 : string) (ws : list string) :
  join sep (w :: w2 :: ws) = w +:+ sep +:+ join sep (w2 :: ws).
Proof. reflexivity. Qed.

Lemma split_join (ws : list string) :
  Forall is_word ws -> split (join " " ws) = ws.
Proof.
  induction 1 as [|w ws Hw Hws IH]; [reflexivity|].
  destruct ws as [|w2 ws]; [by apply split_word|].
  rewrite join_cons2.
  change (w +:+ " " +:+ join " " (w2 :: ws))
    with (w +:+ String " " (join " " (w2 :: ws))).
  rewrite split_word_sep by done. by rewrite IH.
Qed.

Lemma rstrip_no_space (w : string) :
  all_chars (fun c => negb (isspace c)) w = true -> rstrip w = w.
Proof.
  induction w as [|c w IH]; [done|]. intros Hall.
  apply all_chars_cons in Hall as [Hc Hall]. apply negb_true_iff in Hc.
  cbn [rstrip]. rewrite IH by done. destruct w; [by rewrite Hc|done].
Qed.

Lemma rstrip_app (a b : string) :
  rstrip b <> EmptyString -> rstrip (a +:+ b) = a +:+ rstrip b.
Proof.
  intros Hb. induction a as [|c a IH]; [done|].
  change (String c a +:+ b) with (String c (a +:+ b)). cbn [rstrip]. rewrite IH.
  change (String c a +:+ rstrip b) with (String c (a +:+ rstrip b)).
  destruct (a +:+ rstrip b) eqn:E; [|done].
  destruct a; [|discriminate E]. change (rstrip b = EmptyString) in E. done.
Qed.

Lemma join_words_not_empty (w : string) (ws : list string) :
  is_word w -> join " " (w :: ws) <> EmptyString.
Proof. intros [Hne _]. destruct ws; cbn; by destruct w. Qed.

Lemma rstrip_join (ws : list string) :
  Forall is_word ws -> rstrip (join " " ws) = join " " ws.
Proof.
  induction 1 as [|w ws Hw Hws IH]; [reflexivity|].
  destruct ws as [|w2 ws]; [apply rstrip_no_space, Hw|].
  rewrite join_cons2, !rstrip_app; rewrite ?IH; try done.
  - apply join_words_not_empty. by inversion Hws.
  - rewrite rstrip_app; rewrite IH; [|apply join_words_not_empty; by inversion Hws].
    destruct (join " " (w2 :: ws)); done.
Qed.

Lemma lstrip_join (ws : list string) :
  Forall is_word ws -> lstrip (join " " ws) = join " " ws.
Proof.
  destruct 1 as [|w ws [Hne Hall] Hws]; [reflexivity|].
  destruct w as [|c w]; [done|].
  apply all_chars_cons in Hall as [Hc _]. apply negb_true_iff in Hc.
  destruct ws; [cbn [join lstrip]; by rewrite Hc|].
  rewrite join_cons2.
  change (String c w +:+ " " +:+ join " " (s :: ws))
    with (String c (w +:+ " " +:+ join " " (s :: ws))).
  cbn [lstrip]. by rewrite Hc.
Qed.

Lemma strip_join (ws : list string) :
  Forall is_word ws -> strip (join " " ws) = join " " ws.
Proof. intros H. unfold strip. by rewrite lstrip_join, rstrip_join. Qed.

Lemma word_sequence_words (text : string) (i n : nat) :
  Forall is_word (firstn n (skipn i (split text))).
Proof.
  apply Forall_forall. intros w Hin. apply list_elem_of_In in Hin.
  apply elem_of_take in Hin as (k & Hk & _). rewrite lookup_drop in Hk.
  apply (split_words text). by apply list_elem_of_lookup_2 in Hk.
Qed.

(** X7: every name variant the second pass records is a sequence of two
    to four words joined by single spaces, of at least 8 characters:
    splitting it gives these words back, and [strip] leaves it as it is,
    so the text searched for a variant is the variant itself. *)
Theorem X7_name_variants_shape (env : Env) (pdf_path : string)
    (found_persons : list string) (doc : Document) (s : state) :
  exists name_variants s',
    run (second_pass env pdf_path found_persons doc) s = (inr name_variants, s')
    /\ forall v, v ∈ name_variants ->
         strip v = v
         /\ join " " (split v) = v
         /\ (2 <= length (split v) <= 4)%nat
         /\ (8 <= String.length v)%nat.
Proof.
  destruct (second_pass_membership env pdf_path found_persons doc s)
    as (name_variants & out & Hrun & Hmem).
  eexists name_variants, _. split; [exact Hrun|].
  intros v Hv. apply Hmem in Hv as (pn & page & text & i & n & _ & _ & Hrec).
  destruct Hrec as (Hn & Hi & -> & Hlen & _). unfold word_sequence in *.
  pose proof (word_sequence_words text i n) as Hwords.
  split; [by apply strip_join|]. rewrite split_join by done.
  split; [done|]. split; [|done].
  rewrite firstn_length_le; [done|]. rewrite length_skipn. lia.
Qed.

Lemma X7_witness :
  exists name_variants s',
    run (second_pass Toy.env "cv.pdf" ["Jon Gosmithson"] Toy.cv) Toy.s0
    = (inr name_variants, s')
    /\ "Jon Go smithson" ∈ name_variants
    /\ strip "Jon Go smithson" = "Jon Go smithson".
Proof.
  destruct (X7_name_variants_shape Toy.env "cv.pdf" ["Jon Gosmithson"] Toy.cv Toy.s0)
    as (name_variants & s' & Hrun & H).
  exists name_variants, s'. split; [exact Hrun|].
  assert ("Jon Go smithson" ∈ name_variants) as Hin.
  { assert (run (second_pass Toy.env "cv.pdf" ["Jon Gosmithson"] Toy.cv) Toy.s0
            = (inr ["Jon Gosmithson see"; "Jon Go smithson"], Toy.s0)) as Hrun'
      by (vm_compute; reflexivity).
    rewrite Hrun' in Hrun. injection Hrun as <- _. repeat constructor. }
  split; [exact Hin|]. exact (proj1 (H _ Hin)).
Defined.

Lemma NoDup_dict_set (key : string) (d : list string) :
  NoDup d -> NoDup (dict_set key d).
Proof.
  intros Hd. unfold dict_set. case_bool_decide as Hk; [done|].
  apply list.NoDup_app. split; [done|]. split; [|apply NoDup_singleton].
  intros x Hx Hx'. apply list_elem_of_singleton in Hx' as ->. done.
Qed.

Lemma NoDup_check_persons env potential_name found_persons name_variants :
  NoDup name_variants ->
  NoDup (check_persons env potential_name found_persons name_variants).
Proof.
  revert name_variants. induction found_persons as [|person rest IH];
    intros name_variants Hd; cbn [check_persons]; [done|].
  apply IH. destruct (8 <=? String.length person)%nat; [|done].
  destruct (_ && _); [by apply NoDup_dict_set|done].
Qed.

Lemma fold_left_preserves {A B} (P : A -> Prop) (f : A -> B -> A) (l : list B) (a : A) :
  (forall a b, P a -> P (f a b)) -> P a -> P (fold_left f l a).
Proof. intros Hf. revert a. induction l as [|b l IH]; intros a Ha; cbn; auto. Qed.

Lemma NoDup_check_words env words found_persons name_variants :
  NoDup name_variants -> NoDup (check_words env words found_persons name_variants).
Proof.
  unfold check_words. apply fold_left_preserves. clear name_variants.
  intros name_variants i Hd. unfold check_lengths.
  revert Hd. apply fold_left_preserves. clear name_variants.
  intros name_variants n Hd.
  destruct (i + n <=? length words)%nat; [|done].
  destruct (String.length _ <? 8)%nat; [done|]. by apply NoDup_check_persons.
Qed.

Lemma NoDup_foldi_variants env found_persons pgs i0 name_variants :
  NoDup name_variants ->
  NoDup (foldi (variants_page env found_persons) i0 pgs name_variants).
Proof.
  revert i0 name_variants. induction pgs as [|page pgs IH]; intros i0 nv Hd; cbn; [done|].
  apply IH. unfold variants_page. destruct (get_text page); [done|].
  by apply NoDup_check_words.
Qed.

(** X8: the keys of [name_variants] are pairwise different, so each
    variant is searched for once on a page; and when no collected person
    name has 8 characters or more, the second pass records no variant. *)
Theorem X8_name_variants_distinct (env : Env) (pdf_path : string)
    (found_persons : list string) (doc : Document) (s : state) :
  exists name_variants s',
    run (second_pass env pdf_path found_persons doc) s = (inr name_variants, s')
    /\ NoDup name_variants
    /\ ((forall person, person ∈ found_persons -> (String.length person < 8)%nat) ->
        name_variants = []).
Proof.
  destruct (second_pass_membership env pdf_path found_persons doc s)
    as (name_variants & out & Hrun & Hmem).
  exists name_variants, (extend s out []). split; [exact Hrun|]. split.
  - pose proof (returns_for_each (second_pass_page env pdf_path found_persons)
                  (variants_page env found_persons) (fun _ _ => [])
                  (second_pass_page_returns env pdf_path found_persons)
                  (pages doc) 0%nat [] s) as [out' Hrun'].
    unfold second_pass in Hrun. rewrite Hrun in Hrun'. injection Hrun' as -> _.
    apply NoDup_foldi_variants. constructor.
  - intros Hshort. destruct name_variants as [|v rest]; [done|]. exfalso.
    destruct (proj1 (Hmem v)) as (pn & page & text & i & n & _ & _ & Hrec); [left|].
    destruct Hrec as (_ & _ & _ & _ & person & Hin & H8 & _).
    apply Hshort in Hin. lia.
Qed.

Lemma X8_witness :
  exists name_variants s',
    run (second_pass Toy.env "cv.pdf" ["Jon"; "Jon G"] Toy.cv) Toy.s0
    = (inr name_variants, s')
    /\ name_variants = [].
Proof.
  destruct (X8_name_variants_distinct Toy.env "cv.pdf" ["Jon"; "Jon G"] Toy.cv Toy.s0)
    as (name_variants & s' & Hrun & _ & H).
  exists name_variants, s'. split; [exact Hrun|]. apply H.
  intros person Hin. repeat (apply elem_of_cons in Hin as [->|Hin]; [cbn; lia|]).
  by apply elem_of_nil in Hin.
Defined.

(** ** Failures on a page *)

Section PageEvents.

Context (P : event -> Prop) (page_num : nat).
Context (HPsearch : forall needle, P (EvSearchFor page_num needle)).
Context (HPadd : forall rect fill, P (EvAddRedactAnnot page_num rect fill)).
Context (HPapply : P (EvApplyRedactions page_num)).

Lemma search_and_redact_quiet page needle :
  quiet P (text_instances ← find_text_on_page page_num page needle;
           redact_rects page_num page text_instances).
Proof.
  apply quiet_bind.
  - unfold find_text_on_page. apply quiet_bind.
    + apply total_quiet, total_log, HPsearch.
    + intros _. apply quiet_lift.
  - intros rects. unfold redact_rects. apply quiet_for_. intros rect.
    unfold add_redact_annot. destruct (add_redact_annot_error page (enlarge rect)).
    + apply quiet_raise.
    + apply total_quiet, total_log, HPadd.
Qed.

Lemma redact_page_total_on pdf_path all_results name_variants page u :
  total P (redact_page pdf_path all_results name_variants page_num page u).
Proof.
  unfold redact_page. apply total_try_except; [|intros e; apply total_print].
  apply quiet_bind; [|intros _; apply quiet_bind].
  - apply quiet_for_. intros [[p r] t].
    destruct (p =? page_num)%nat; [|apply total_quiet, total_ret].
    apply search_and_redact_quiet.
  - apply quiet_for_. intros variant. apply search_and_redact_quiet.
  - intros _. unfold apply_redactions. destruct (apply_redactions_error page).
    + apply quiet_raise.
    + apply total_quiet, total_log, HPapply.
Qed.

End PageEvents.

(** X9: a PyMuPDF call that raises on one page does not stop the
    redaction pass: the pass always returns normally and leaves the files
    alone; its calls are one segment for each page, each made of calls on
    that page only; the segment of a page on which no call raises is the
    full one: all its searches and annotations, then [apply_redactions];
    and [apply_redactions] is called for no other page. *)
Theorem X9_redaction_pass_isolates_failures (pdf_path : string)
    (all_results : list entry) (name_variants : list string) (doc : Document)
    (s : state) :
  exists out segs,
    run (redaction_pass pdf_path all_results name_variants doc) s
    = (inr tt, mkState (files s) (stdout s ++ out) (calls s ++ concat segs))
    /\ length segs = length (pages doc)
    /\ forall k page seg,
         pages doc !! k = Some page -> segs !! k = Some seg ->
         Forall (on_page k) seg
         /\ (page_calls_ok all_results name_variants k page ->
             seg = page_redaction_calls all_results name_variants k page)
         /\ (EvApplyRedactions k ∈ seg ->
             page_calls_ok all_results name_variants k page).
Proof.
  unfold redaction_pass.
  destruct (redaction_loop_segments_calls pdf_path all_results name_variants
              (pages doc) 0%nat s) as (out & segs & Hrun & Hlen & Hsegs).
  exists out, segs. split; [exact Hrun|]. split; [exact Hlen|].
  intros k page seg Hk Hseg.
  destruct (Hsegs k page seg Hk Hseg) as (Hon & _ & Hfull & Happly).
  split; [exact Hon|]. split; [apply Hfull|apply Happly].
Qed.

Lemma X9_witness :
  exists out seg0 seg1,
    run (redaction_pass "cv.pdf"
           [(0%nat, mkResult "PERSON" 0 14, "Jon Gosmithson")]
           ["Jon Go smithson"] ToyBroken.strict_doc) Toy.s0
    = (inr tt,
       mkState (files Toy.s0) (stdout Toy.s0 ++ out)
         (calls Toy.s0 ++ concat [seg0; seg1]))
    /\ seg1 = page_redaction_calls
                [(0%nat, mkResult "PERSON" 0 14, "Jon Gosmithson")]
                ["Jon Go smithson"] 1 (ToyBroken.strict_page Toy.cv_page1).
Proof.
  destruct (X9_redaction_pass_isolates_failures "cv.pdf"
              [(0%nat, mkResult "PERSON" 0 14, "Jon Gosmithson")]
              ["Jon Go smithson"] ToyBroken.strict_doc Toy.s0)
    as (out & segs & Hrun & Hlen & Hsegs).
  destruct segs as [|seg0 [|seg1 [|? ?]]]; try discriminate Hlen.
  exists out, seg0, seg1. split; [exact Hrun|].
  apply (Hsegs 1%nat (ToyBroken.strict_page Toy.cv_page1) seg1); [reflexivity..|].
  apply strict_page_calls_ok. intros n Hn.
  repeat (apply elem_of_cons in Hn as [->|Hn]; [discriminate|]).
  by apply elem_of_nil in Hn.
Defined.

(** ** More on [redact_pdf] as a whole *)

Lemma pass_event_analyze_calls (pgs : list Page) i0 :
  Forall pass_event (concat_mapi analyze_calls i0 pgs).
Proof.
  revert i0. induction pgs as [|page pgs IH]; intros i0; cbn; [constructor|].
  apply Forall_app. split; [|apply IH].
  unfold analyze_calls. destruct (get_text page); by repeat constructor.
Qed.

(** The three loops return, leave the files alone, and make only calls of
    their own kinds. *)
Lemma redact_pages_events env pdf_path analyzer T doc s :
  exists out evs,
    run (redact_pages env pdf_path analyzer T doc) s = (inr tt, extend s out evs)
    /\ Forall pass_event evs.
Proof.
  unfold redact_pages.
  destruct (first_pass_returns pdf_path analyzer T doc s) as [out1 H1].
  rewrite run_bind, H1.
  match goal with |- context [second_pass env pdf_path ?fp doc] =>
    destruct (second_pass_membership env pdf_path fp doc
                (extend s out1 (concat_mapi analyze_calls 0 (pages doc))))
      as (name_variants & out2 & H2 & _)
  end.
  rewrite run_bind, H2.
  match goal with |- context [redaction_pass pdf_path ?ar name_variants doc] =>
    assert (total pass_event (redaction_pass pdf_path ar name_variants doc)) as Htot
  end.
  { unfold redaction_pass. apply total_for_each. intros i page u.
    apply redact_page_total_on; intros; exact I. }
  destruct (Htot (extend (extend s out1 (concat_mapi analyze_calls 0 (pages doc))) out2 []))
    as ([] & out3 & evs3 & H3 & HP3).
  rewrite H3, !extend_extend. eexists _, _. split; [reflexivity|].
  apply Forall_app. split; [apply pass_event_analyze_calls|]. exact HP3.
Qed.

Lemma redact_pdf_outcome env pdf_path output_path analyzer ignore_terms s :
  run_outcome env pdf_path output_path s
    (run (redact_pdf env pdf_path output_path analyzer ignore_terms) s).
Proof.
  rewrite redact_pdf_run.
  destruct (fitz_open_state env pdf_path s) as [[e|doc] Hopen].
  - destruct (not_opened_outcome env pdf_path output_path analyzer ignore_terms s e Hopen)
      as [(data & Hf & _ & _ & Hrun)|(e' & Hcopy & Hrun)]; rewrite Hrun.
    + by apply (run_copied_after_open _ _ _ _ e data).
    + cbn [files stdout calls]. rewrite <- app_assoc.
      by apply (run_raised_after_open _ _ _ _ e e').
  - rewrite (redact_pdf_body_pages _ _ _ _ _ _ doc Hopen), run_bind.
    destruct (redact_pages_events env pdf_path analyzer
                (effective_ignore_terms ignore_terms) doc s) as (out & evs & Hpages & HP).
    rewrite Hpages.
    destruct (save_or_copy_outcome env pdf_path output_path doc (extend s out evs))
      as [data Hb Hw|e0 data _ Hf _ _|e0 e' _ Hcopy]; unfold extend in *;
      cbn [files stdout calls] in *.
    + rewrite <- !app_assoc. by apply (run_saved _ _ _ _ doc data).
    + rewrite <- !app_assoc. by apply (run_copied_after_save _ _ _ _ doc data).
    + rewrite <- !app_assoc. rewrite (app_assoc out).
      by apply (run_raised_after_save _ _ _ _ doc e').
Qed.

(** X10: a run of [redact_pdf] writes no file but the one at the output
    path: every other path, the input among them when it is another
    path, holds after the run what it held before. *)
Theorem X10_only_output_path_written (env : Env) (pdf_path output_path : string)
    (analyzer : Analyzer) (ignore_terms : option (gset string)) (s : state)
    (path : string) :
  path <> output_path ->
  files (run (redact_pdf env pdf_path output_path analyzer ignore_terms) s).2 !! path
  = files s !! path.
Proof.
  intros Hne.
  destruct (redact_pdf_outcome env pdf_path output_path analyzer ignore_terms s);
    cbn [snd files]; by rewrite ?lookup_insert_ne.
Qed.

Lemma X10_witness :
  files (run (redact_pdf Toy.env "cv.pdf" "out.pdf" Toy.analyzer None) Toy.s0).2
    !! "cv.pdf"
  = files Toy.s0 !! "cv.pdf".
Proof. apply X10_only_output_path_written. discriminate. Defined.

(** X11: the only exception a run of [redact_pdf] can raise is the
    [NameError] of its handler, and it raises only when the copy of the
    input to the output path fails; then no file has changed. In every
    other case it returns normally. *)
Theorem X11_raises_only_when_copy_fails (env : Env) (pdf_path output_path : string)
    (analyzer : Analyzer) (ignore_terms : option (gset string)) (s : state) :
  let r := run (redact_pdf env pdf_path output_path analyzer ignore_terms) s in
  r.1 = inr tt
  \/ (r.1 = inl (Exn "NameError" "name 'traceback' is not defined")
      /\ files r.2 = files s
      /\ exists e', run (shutil_copy2 env pdf_path output_path) s = (inl e', s)).
Proof.
  cbv zeta.
  destruct (redact_pdf_outcome env pdf_path output_path analyzer ignore_terms s)
    as [| | |doc e' out evs _ _ Hcopy|e e' out _ Hcopy]; cbn [fst snd files];
    [by left..| |]; right; (split; [done|]); (split; [done|]);
    exists e'; by apply Hcopy.
Qed.

(** X12: when the document opens, [redact_pdf] closes it exactly once, as
    its last call, whether the saving succeeds, the copy replaces it, or
    both fail; when it does not open there is nothing to close. *)
Theorem X12_document_closed_once (env : Env) (pdf_path output_path : string)
    (analyzer : Analyzer) (ignore_terms : option (gset string)) (s : state) :
  let s' := (run (redact_pdf env pdf_path output_path analyzer ignore_terms) s).2 in
  (forall doc, run (fitz_open env pdf_path) s = (inr doc, s) ->
     exists evs, calls s' = calls s ++ evs ++ [EvClose] /\ EvClose ∉ evs)
  /\ (forall e, run (fitz_open env pdf_path) s = (inl e, s) ->
        exists evs, calls s' = calls s ++ evs /\ EvClose ∉ evs).
Proof.
  cbv zeta.
  assert (forall evs, Forall pass_event evs -> EvClose ∉ evs) as Hpass.
  { intros evs HP Hin. rewrite list.Forall_forall in HP. by apply HP in Hin. }
  destruct (redact_pdf_outcome env pdf_path output_path analyzer ignore_terms s)
    as [doc data out evs Hopen HP _ _|doc data out evs Hopen HP _|e data out Hopen _
       |doc e' out evs Hopen HP _|e e' out Hopen _]; cbn [snd calls]; split;
    intros x Hx; try congruence.
  - exists (evs ++ [EvSave output_path]). rewrite <- !app_assoc. split; [done|].
    intros Hin. apply elem_of_app in Hin as [Hin|Hin]; [by apply Hpass in Hin|].
    by apply list_elem_of_singleton in Hin.
  - exists (evs ++ [EvCopy2 pdf_path output_path]). rewrite <- !app_assoc.
    split; [done|].
    intros Hin. apply elem_of_app in Hin as [Hin|Hin]; [by apply Hpass in Hin|].
    by apply list_elem_of_singleton in Hin.
  - exists [EvCopy2 pdf_path output_path]. split; [done|].
    intros Hin. by apply list_elem_of_singleton in Hin.
  - exists evs. split; [done|]. by apply Hpass.
  - exists []. split; [by rewrite app_nil_r|]. intros Hin. by apply elem_of_nil in Hin.
Qed.

Lemma X12_witness :
  exists evs,
    calls (run (redact_pdf Toy.env "old.pdf" "/ro/out.pdf" Toy.analyzer None) Toy.s0).2
    = calls Toy.s0 ++ evs ++ [EvClose]
    /\ EvClose ∉ evs.
Proof.
  apply (proj1 (X12_document_closed_once Toy.env "old.pdf" "/ro/out.pdf" Toy.analyzer
                  None Toy.s0) Toy.damaged).
  vm_compute. reflexivity.
Defined.

(** X13: when the document opens, can be serialized after the three
    loops and the output path can be written, [redact_pdf] returns
    normally, the output path holds the serialized document, and the last
    two calls are the saving and the closing. *)
Theorem X13_saves_redacted_document (env : Env) (pdf_path output_path : string)
    (analyzer : Analyzer) (ignore_terms : option (gset string)) (s s3 : state)
    (doc : Document) (data : string) :
  run (fitz_open env pdf_path) s = (inr doc, s) ->
  run (redact_pages env pdf_path analyzer (effective_ignore_terms ignore_terms) doc) s
  = (inr tt, s3) ->
  fitz_tobytes env doc (calls s3) = inr data ->
  writable env output_path = true ->
  run (redact_pdf env pdf_path output_path analyzer ignore_terms) s
  = (inr tt,
     mkState (<[output_path := data]> (files s)) (stdout s3)
       (calls s3 ++ [EvSave output_path; EvClose])).
Proof.
  intros Hopen Hpages Hb Hw.
  rewrite redact_pdf_run, (redact_pdf_body_pages _ _ _ _ _ _ doc Hopen), run_bind, Hpages.
  destruct (redact_pages_total env pdf_path analyzer
              (effective_ignore_terms ignore_terms) doc s) as (out & evs & Hs3).
  rewrite Hpages in Hs3. injection Hs3 as ->.
  unfold save_or_copy, document_save, document_close. py_unfold.
  rewrite Hb, Hw. cbn. by rewrite <- app_assoc.
Qed.

Lemma X13_witness :
  exists s3,
    run (redact_pdf Toy.env "cv.pdf" "out.pdf" Toy.analyzer None) Toy.s0
    = (inr tt,
       mkState (<["out.pdf" := "%PDF redacted"]> (files Toy.s0)) (stdout s3)
         (calls s3 ++ [EvSave "out.pdf"; EvClose])).
Proof.
  destruct (redact_pages_total Toy.env "cv.pdf" Toy.analyzer
              (effective_ignore_terms None) Toy.cv Toy.s0) as (out & evs & Hpages).
  exists (extend Toy.s0 out evs).
  apply (X13_saves_redacted_document Toy.env "cv.pdf" "out.pdf" Toy.analyzer None
           Toy.s0 (extend Toy.s0 out evs) Toy.cv "%PDF redacted").
  - vm_compute. reflexivity.
  - exact Hpages.
  - reflexivity.
  - reflexivity.
Defined.

(** ** More on batch processing *)

Lemma str_of_nat_inj (a b : nat) : str_of_nat a = str_of_nat b -> a = b.
Proof.
  unfold str_of_nat. intros H.
  apply (f_equal NilEmpty.uint_of_string) in H. rewrite !NilEmpty.usu in H.
  injection H as H. apply (f_equal Nat.of_uint) in H.
  by rewrite !DecimalNat.Unsigned.of_to in H.
Qed.

Lemma length_append (s1 s2 : string) :
  String.length (s1 +:+ s2) = (String.length s1 + String.length s2)%nat.
Proof.
  induction s1 as [|c s1 IH]; [done|].
  change (String c s1 +:+ s2) with (String c (s1 +:+ s2)).
  cbn [String.length]. by rewrite IH.
Qed.

Lemma append_cancel_r (s1 s2 x : string) : s1 +:+ x = s2 +:+ x -> s1 = s2.
Proof.
  revert s2. induction s1 as [|c s1 IH]; intros [|d s2] H; try done.
  - apply (f_equal String.length) in H. rewrite !length_append in H.
    cbn [String.length] in H. lia.
  - apply (f_equal String.length) in H. rewrite !length_append in H.
    cbn [String.length] in H. lia.
  - change (String c (s1 +:+ x) = String d (s2 +:+ x)) in H.
    injection H as -> H. f_equal. by apply IH.
Qed.

Lemma str_of_nat_no_slash (n : nat) (x : string) :
  startswith "/" (str_of_nat n +:+ ".pdf") = false.
Proof. unfold str_of_nat. by destruct (Nat.to_uint n). Qed.

(** The output path of the entry numbered [count]. *)
Lemma output_path_inj (output_dir : string) (a b : nat) :
  OsPath.join output_dir (str_of_nat a +:+ ".pdf")
  = OsPath.join output_dir (str_of_nat b +:+ ".pdf") ->
  a = b.
Proof.
  unfold OsPath.join.
  rewrite (str_of_nat_no_slash a ""), (str_of_nat_no_slash b "").
  intros H. apply str_of_nat_inj, (append_cancel_r _ _ ".pdf").
  destruct (String.eqb output_dir "" || endswith "/" output_dir).
  - by apply String.app_inj in H.
  - apply String.app_inj in H. by apply (String.app_inj "/") in H.
Qed.

Lemma NoDup_fst_filter {A B} (p : A * B -> bool) (l : list (A * B)) :
  NoDup (map fst l) -> NoDup (map fst (List.filter p l)).
Proof.
  induction l as [|x l IH]; cbn; [done|]. intros Hd.
  apply list.NoDup_cons in Hd as [Hx Hd]. destruct (p x); cbn; [|by apply IH].
  apply list.NoDup_cons. split; [|by apply IH]. intros Hin. apply Hx.
  apply list_elem_of_fmap in Hin as (y & -> & Hy). apply list_elem_of_fmap.
  exists y. split; [done|]. apply list_elem_of_In, filter_In in Hy as [Hy _].
  by apply list_elem_of_In.
Qed.

Lemma map_fst_combine {A B} (l1 : list A) (l2 : list B) :
  length l1 = length l2 -> map fst (combine l1 l2) = l1.
Proof.
  revert l2. induction l1 as [|a l1 IH]; intros [|b l2] H; try done.
  cbn. f_equal. apply IH. by injection H.
Qed.

(** X14: [process_directory] never gives two entries of a listing the
    same output path: the output paths of its calls of [redact_pdf] are
    pairwise different. *)
Theorem X14_output_paths_distinct (input_dir output_dir : string)
    (filenames : list string) :
  NoDup (map snd (pdf_jobs input_dir output_dir filenames)).
Proof.
  unfold pdf_jobs. rewrite map_map.
  assert (forall l : list (nat * string),
            map (fun x => snd (let '(count, filename) := x in
                               (OsPath.join input_dir filename,
                                OsPath.join output_dir (str_of_nat count +:+ ".pdf")))) l
            = map (fun count => OsPath.join output_dir (str_of_nat count +:+ ".pdf"))
                (map fst l)) as ->.
  { intros l. rewrite map_map. apply map_ext. by intros [count filename]. }
  assert (Inj eq eq (fun count => OsPath.join output_dir (str_of_nat count +:+ ".pdf")))
    as Hinj by (intros a b; apply output_path_inj).
  apply (NoDup_fmap_2 _). apply NoDup_fst_filter. rewrite map_fst_combine by apply length_seq.
  apply NoDup_seq.
Qed.

Lemma run_for_stops {A} (f : A -> Py unit) (pre : list A) (x : A) (post : list A)
    (s s2 s3 : state) (e : exn) :
  run (for_ pre f) s = (inr tt, s2) ->
  run (f x) s2 = (inl e, s3) ->
  run (for_ (pre ++ x :: post) f) s = (inl e, s3).
Proof.
  revert s. induction pre as [|y pre IH]; intros s Hpre Hx.
  - injection Hpre as <-. cbn [app for_]. by rewrite run_bind, Hx.
  - cbn [app for_] in *. rewrite run_bind in *.
    destruct (run (f y) s) as [[e'|[]] s1]; [done|]. by apply IH.
Qed.

(** X15: [process_directory] stops at the first call of [redact_pdf]
    that raises: the exception, which is the [NameError] of the handler,
    leaves [process_directory], and the entries after it in the listing
    are not processed. *)
Theorem X15_batch_stops_at_first_failure (env : Env) (input_dir output_dir : string)
    (analyzer : Analyzer) (ignore_terms : option (gset string)) (s s2 s3 : state)
    (filenames : list string) (pre post : list (string * string))
    (job : string * string) (e : exn) :
  os_makedirs_error env output_dir = None ->
  os_listdir env input_dir = inr filenames ->
  pdf_jobs input_dir output_dir filenames = pre ++ job :: post ->
  run (for_ pre (redact_job env analyzer ignore_terms))
    (mkState (files s) (stdout s)
       (calls s ++ [EvMakedirs output_dir true; EvListdir input_dir]))
  = (inr tt, s2) ->
  run (redact_job env analyzer ignore_terms job) s2 = (inl e, s3) ->
  run (process_directory env input_dir output_dir analyzer ignore_terms) s = (inl e, s3)
  /\ e = Exn "NameError" "name 'traceback' is not defined".
Proof.
  intros Hmk Hls Hjobs Hpre Hjob. split.
  - assert (run (process_directory env input_dir output_dir analyzer ignore_terms) s
            = run (for_each (process_entry env input_dir output_dir analyzer ignore_terms)
                     0 filenames 0%nat;; mret tt)
                (mkState (files s) (stdout s)
                   ((calls s ++ [EvMakedirs output_dir true]) ++ [EvListdir input_dir])))
      as ->.
    { unfold process_directory, os_makedirs, listdir. rewrite Hmk, Hls. reflexivity. }
    rewrite <- app_assoc. cbn [app].
    rewrite (process_entries_run env input_dir output_dir analyzer ignore_terms
               filenames 0 0).
    fold (pdf_jobs input_dir output_dir filenames). rewrite Hjobs.
    exact (run_for_stops (redact_job env analyzer ignore_terms) pre job post _ s2 s3 e
             Hpre Hjob).
  - destruct job as [input_path output_path]. unfold redact_job in Hjob.
    rewrite redact_pdf_run in Hjob.
    destruct (run (redact_pdf_body env input_path output_path analyzer ignore_terms) s2)
      as [[e0|[]] s']; [|done]. by injection Hjob as <- _.
Qed.

Lemma X15_witness :
  exists s3,
    run (process_directory Toy.env "in" "out" Toy.analyzer None) Toy.s0
    = (inl (Exn "NameError" "name 'traceback' is not defined"), s3)
    /\ files s3 = files Toy.s0.
Proof.
  eexists. split.
  - apply (X15_batch_stops_at_first_failure Toy.env "in" "out" Toy.analyzer None Toy.s0
             (mkState (files Toy.s0) [] [EvMakedirs "out" true; EvListdir "in"])
             (mkState (files Toy.s0)
                ["Error opening PDF in/a.pdf: no such file: 'in/a.pdf'";
                 "Unexpected error processing in/a.pdf: No such file or directory: 'in/a.pdf'"]
                [EvMakedirs "out" true; EvListdir "in"])
             ["a.pdf"; "notes.txt"; "b.PDF"] [] [("in/b.PDF", "out/3.pdf")]
             ("in/a.pdf", "out/1.pdf")
             (Exn "NameError" "name 'traceback' is not defined")).
    + reflexivity.
    + reflexivity.
    + reflexivity.
    + reflexivity.
    + vm_compute. reflexivity.
  - reflexivity.
Defined.

(** ** More on [extract.py] *)



(** ** From detection to redaction *)








